(** * CircleCI context manager: the reconciliation run of [context.py]

    A shallow embedding of [src/context.py]: the loader's shape check
    ([load_config_yaml]), the API client ([CircleCIClient]) and the
    reconciliation loop of [main].  The remote service is a parameter: a
    state type and a transition function that answers one request at a
    time.  Every client operation is a computation that threads the
    remote's state and emits the trace of what it did: the requests it
    sent, each with the answer it got, interleaved with the log lines it
    wrote. *)

From stdpp Require Import base strings gmap list.
From Stdlib Require Import ZArith Lia Ascii.

Local Open Scope string_scope.
Local Open Scope list_scope.
Set Warnings "-register-all".

(** ** Documents *)

(** What [yaml.safe_load] hands back.  Mapping keys are strings, as the
    annotation [Dict[str, List[Dict[str, Any]]]] of the loader says. *)
Inductive yaml : Type :=
| YNull
| YBool (b : bool)
| YInt (z : Z)
| YStr (s : string)
| YSeq (l : list yaml)
| YMap (kv : list (string * yaml)).

(** The outcome of opening and parsing the file at [file_path]. *)
Inductive config_file : Type :=
| NotAFile                 (* [path.is_file()] is false *)
| Unreadable               (* [IOError] *)
| Malformed                (* [yaml.YAMLError] *)
| Parsed (doc : yaml).

(** The value [load_config_yaml] returns on success: group name to the
    list found under it, in document order. *)
Definition desired_state : Type := list (string * list yaml).

(** ** Log lines

    One constructor per message of the modelled functions; the [debug]
    calls are left out ([basicConfig] sets the level to [INFO]). *)
Inductive action : Type := Updated | Created.

Inductive Method : Type := GET | POST | PUT.

Inductive log_msg : Type :=
(* load_config_yaml *)
| ConfigNotFound
| InvalidRoot
| InvalidContextFormat (ctx_name : string)
| InvalidVariableFormat (ctx_name : string)
| ConfigLoaded
| ConfigParseError
| ConfigReadError
(* CircleCIClient._request *)
| ApiRequestFailed (m : Method) (url : string)
| StatusCode (code : Z)
| ErrorDetails
| ErrorNoResponse
(* CircleCIClient.list_contexts *)
| ParseContextsFailed
| RetrieveContextsFailed
| FoundContexts (n : nat) (org_id : string)
(* CircleCIClient.create_context *)
| CreatingContext (context_name : string)
| CreatedContext (context_name context_id : string)
| CreateNoId
| CreateParseFailed
(* CircleCIClient.list_environment_variables *)
| ParseEnvVarsFailed (context_id : string)
| RetrieveEnvVarsFailed (context_id : string)
(* CircleCIClient.create_or_update_environment_variable *)
| UpsertFailed (var_name context_id : string)
(* main *)
| DryRunEnabled
| ClientInitFailed
| FetchingContexts
| DryRunSimulatedFetch
| AbortNoContexts
| ProcessingContext (context_name : string)
| ContextExists (context_name context_id : string)
| ContextNotFound (context_name : string)
| DryRunWouldCreate (context_name : string)
| SkippingContext (context_name : string)
| ProcessingVariables (context_name context_id : string)
| SkippingInvalidEntry (context_name : string)
| DryRunEnsure (var_name context_name : string) (a : action)
| VariableDone (a : action) (var_name context_name : string)
| VariableFailed (var_name context_name : string)
| ScriptFinished.

(** ** load_config_yaml (lines 74-118) *)

(** [isinstance(item, dict) and len(item) == 1] *)
Definition is_single_pair (item : yaml) : bool :=
  match item with
  | YMap [_] => true
  | _ => false
  end.

(** The loop over [config.items()]: the first group that is not a list
    of single-pair mappings ends the load with its error. *)
Fixpoint validate_contexts (entries : list (string * yaml))
  : log_msg + desired_state :=
  match entries with
  | [] => inr []
  | (ctx_name, var_list) :: rest =>
      match var_list with
      | YSeq items =>
          if forallb is_single_pair items
          then match validate_contexts rest with
               | inr cfg => inr ((ctx_name, items) :: cfg)
               | inl e => inl e
               end
          else inl (InvalidVariableFormat ctx_name)
      | _ => inl (InvalidContextFormat ctx_name)
      end
  end.

Definition load_config_yaml (file : config_file)
  : option desired_state * list log_msg :=
  match file with
  | NotAFile => (None, [ConfigNotFound])
  | Unreadable => (None, [ConfigReadError])
  | Malformed => (None, [ConfigParseError])
  | Parsed (YMap entries) =>
      match validate_contexts entries with
      | inr cfg => (Some cfg, [ConfigLoaded])
      | inl e => (None, [e])
      end
  | Parsed _ => (None, [InvalidRoot])
  end.

(** ** Requests and responses *)

(** The endpoints the client formats, kept structured; [render] gives
    the text of the f-string. *)
Inductive Endpoint : Type :=
| ContextList (owner_id : string) (page_token : option string)
| ContextCreate
| EnvVarList (context_id : string) (page_token : option string)
| EnvVar (context_id var_name : string).

Definition render (e : Endpoint) : string :=
  match e with
  | ContextList org None => "context?owner-id=" +:+ org
  | ContextList org (Some t) =>
      ("context?owner-id=" +:+ org) +:+ ("&page-token=" +:+ t)
  | ContextCreate => "context"
  | EnvVarList cid None => "context/" +:+ cid +:+ "/environment-variable"
  | EnvVarList cid (Some t) =>
      ("context/" +:+ cid +:+ "/environment-variable") +:+ ("?page-token=" +:+ t)
  | EnvVar cid v => "context/" +:+ cid +:+ "/environment-variable/" +:+ v
  end.

Inductive Payload : Type :=
| CreatePayload (name owner_id : string)   (* owner type "organization" *)
| ValuePayload (value : string).

Record Request : Type := mkRequest {
  req_method : Method;
  req_base : string;
  req_endpoint : Endpoint;
  req_json : option Payload
}.

(** [endpoint.lstrip('/')] *)
Fixpoint lstrip_slash (s : string) : string :=
  match s with
  | String "/"%char s' => lstrip_slash s'
  | _ => s
  end.

Definition req_url (r : Request) : string :=
  req_base r +:+ "/" +:+ lstrip_slash (render (req_endpoint r)).

(** A JSON body at the shape of the v2 API: an object and, for the
    listings, an [items] array of objects.  The fields the client reads
    ([id], [name], [variable], [next_page_token]) hold text, as the API
    documents them; in [fields] a field that is absent and one that is
    [null] read alike ([.get]).  An answer whose [items] array has an
    object without a field the client reads is a [json_body] up to and
    including that object, at which the loop stops with [KeyError].
    The JSON bodies that are no [json_body] are [odd_body] below. *)
Definition json_object : Type := list (string * string).

Record json_body : Type := mkBody {
  fields : json_object;
  items : option (list json_object)
}.

(** A response that passed [raise_for_status]; [None] is a body that is
    not JSON, for which [response.json()] raises [ValueError]. *)
Definition Response : Type := option json_body.

(** A JSON body that is not a [json_body], by what the client's reads do
    with it (a body is told apart as far as the client reads it):
    - [NotAnObject]: JSON that is no object - an array, a string, a
      number, [true], [false], [null]; [.get] on it raises
      [AttributeError];
    - [UnreadableItems fields]: an object with these string fields
      whose [items] makes the loops of lines 186-187 and 265-266 raise
      [TypeError]: [null], a number or a boolean, which cannot be
      iterated, or a sequence in which the first element that is not an
      object with text under the fields read is no object at all, or
      is an object that holds an array or an object where the loop
      needs a key ([name], [variable]). *)
Inductive odd_body : Type :=
| NotAnObject
| UnreadableItems (fields : json_object).

(** What [session.request] followed by [raise_for_status] gives.
    [RequestException] is no answer at all ([None]) or a 4xx/5xx answer
    whose body is a JSON object or is not JSON, the two cases the
    handler of lines 151-158 gets through; [RequestExceptionOdd] is a
    4xx/5xx answer whose body is JSON and no object; [ReturnedOdd] is a
    2xx answer whose body is JSON and no [json_body]. *)
Inductive outcome : Type :=
| RequestException (status : option Z)
| Returned (resp : Response)
| RequestExceptionOdd (status_code : Z)
| ReturnedOdd (body : odd_body).

(** The response object [_request] returns, by what [response.json()]
    gives its caller. *)
Inductive reply : Type :=
| Plain (resp : Response)
| Odd (body : odd_body).

Inductive Event : Type :=
| Http (req : Request) (out : outcome)
| Log (m : log_msg).

(** Python's [dict[key]] ([None] is [KeyError]) and [dict.get(key)]. *)
Fixpoint get (o : json_object) (key : string) : option string :=
  match o with
  | [] => None
  | (k, v) :: rest => if String.eqb k key then Some v else get rest key
  end.

(** Truth value of a string, and of an optional one ([None] is false). *)
Definition truthy (s : string) : bool :=
  match s with
  | EmptyString => false
  | String _ _ => true
  end.

Definition truthy_opt (o : option string) : option string :=
  match o with
  | Some s => if truthy s then Some s else None
  | None => None
  end.

(** ** Outcomes of a computation *)

(** The exceptions that nothing in the program catches. *)
Inductive exn : Type := AttributeError | TypeError.

Inductive Result (A : Type) : Type :=
| Ret (a : A)
| SysExit (code : Z)      (* [sys.exit(code)] *)
| OutOfFuel               (* a [while True] loop that was not seen to end *)
| Raised (e : exn).       (* an uncaught exception: traceback, status 1 *)
Arguments Ret {A} a.
Arguments SysExit {A} code.
Arguments OutOfFuel {A}.
Arguments Raised {A} e.

Record Args : Type := mkArgs {
  config : string;
  org_id : string;
  dry_run : bool
}.

Record CircleCIClient : Type := mkClient {
  base_url : string;
  client_org_id : string;
  circle_token : string
}.

Definition CIRCLECI_API_BASE_URL : string := "https://circleci.com/api/v2".

(** [CircleCIClient.__init__]: [inl] is the [ValueError]. *)
Definition CircleCIClient_init (api_token org : string)
  : string + CircleCIClient :=
  if truthy api_token then
    if truthy org then inr (mkClient CIRCLECI_API_BASE_URL org api_token)
    else inl "Organization ID cannot be empty."
  else inl "API token cannot be empty.".

(** Line 420: ["Updated" if var_name in existing_var_names else "Created"]. *)
Definition classify (existing_var_names : gset string) (var_name : string)
  : action :=
  if decide (var_name ∈ existing_var_names) then Updated else Created.

(** Line 369: the snapshot a dry run makes up,
    [{name: f"dry-run-id-{name}" for name in config_data.keys()}]. *)
Definition simulated_contexts (config_data : desired_state)
  : gmap string string :=
  foldl (fun d name => <[name := "dry-run-id-" +:+ name]> d) ∅ (config_data.*1).

Section Client.

(** The remote service and Python's built-in [str] on a value that is
    not already text. *)
Context {Remote : Type}.
Variable serve : Remote -> Request -> outcome * Remote.
Variable py_str : yaml -> string.

Definition M (A : Type) : Type := Remote -> Result A * Remote * list Event.

#[global] Instance M_ret : MRet M := fun A a r => (Ret a, r, []).

#[global] Instance M_bind : MBind M := fun A B f m r =>
  match m r with
  | (Ret a, r1, t1) =>
      match f a r1 with
      | (x, r2, t2) => (x, r2, (t1 ++ t2)%list)
      end
  | (SysExit c, r1, t1) => (SysExit c, r1, t1)
  | (OutOfFuel, r1, t1) => (OutOfFuel, r1, t1)
  | (Raised e, r1, t1) => (Raised e, r1, t1)
  end.

Definition log (m : log_msg) : M unit := fun r => (Ret tt, r, [Log m]).
Definition sys_exit {A} (code : Z) : M A := fun r => (SysExit code, r, []).
Definition out_of_fuel {A} : M A := fun r => (OutOfFuel, r, []).
Definition raise {A} (e : exn) : M A := fun r => (Raised e, r, []).
Definition send (req : Request) : M outcome := fun r =>
  match serve r req with
  | (out, r') => (Ret out, r', [Http req out])
  end.

(** *** _request (lines 142-161)

    The handler catches [RequestException] only, and inside it the
    [try] around the error details catches [ValueError] only: when the
    body of the refused answer is JSON and no object, [error_data.get]
    raises [AttributeError] after the status line, and nothing between
    here and the top of [main] catches it. *)
Definition _request (self : CircleCIClient) (method : Method)
    (endpoint : Endpoint) (json : option Payload) : M (option reply) :=
  let req := mkRequest method (base_url self) endpoint json in
  out ← send req;
  match out with
  | Returned response => mret (Some (Plain response))
  | ReturnedOdd body => mret (Some (Odd body))
  | RequestException e_response =>
      log (ApiRequestFailed method (req_url req));;
      match e_response with
      | Some status_code => log (StatusCode status_code);; log ErrorDetails
      | None => log ErrorNoResponse
      end;;
      mret None
  | RequestExceptionOdd status_code =>
      log (ApiRequestFailed method (req_url req));;
      log (StatusCode status_code);;
      raise AttributeError
  end.

(** *** list_contexts (lines 163-199) *)

(** [for item in ...: contexts[item["name"]] = item["id"]]; [None] is
    the [KeyError] of a missing field. *)
Fixpoint add_contexts (its : list json_object) (contexts : gmap string string)
  : option (gmap string string) :=
  match its with
  | [] => Some contexts
  | item :: rest =>
      match get item "id", get item "name" with
      | Some id, Some name => add_contexts rest (<[name := id]> contexts)
      | _, _ => None
      end
  end.

(** The [while True] loop, one iteration per unit of fuel.  The result
    is optional because [main] tests it against [None].  The [try] of
    lines 184-193 catches [ValueError] and [KeyError]; what a body that
    is no [json_body] raises goes through. *)
Fixpoint list_contexts_loop (fuel : nat) (self : CircleCIClient)
    (contexts : gmap string string) (next_page_token : option string)
  : M (option (gmap string string)) :=
  match fuel with
  | O => out_of_fuel
  | S fuel' =>
      let current_endpoint :=
        ContextList (client_org_id self) (truthy_opt next_page_token) in
      response ← _request self GET current_endpoint None;
      match response with
      | Some (Plain resp) =>
          match resp with
          | Some data =>
              match add_contexts (default [] (items data)) contexts with
              | Some contexts' =>
                  match truthy_opt (get (fields data) "next_page_token") with
                  | Some tok =>
                      list_contexts_loop fuel' self contexts' (Some tok)
                  | None =>
                      log (FoundContexts (size contexts') (client_org_id self));;
                      mret (Some contexts')
                  end
              | None => log ParseContextsFailed;; mret (Some ∅)
              end
          | None => log ParseContextsFailed;; mret (Some ∅)
          end
      | Some (Odd NotAnObject) => raise AttributeError
      | Some (Odd (UnreadableItems _)) => raise TypeError
      | None => log RetrieveContextsFailed;; mret (Some ∅)
      end
  end.

Definition list_contexts (fuel : nat) (self : CircleCIClient)
  : M (option (gmap string string)) :=
  list_contexts_loop fuel self ∅ None.

(** *** create_context (lines 201-237)

    Only [ValueError] is caught (line 232): [data.get] on a body that is
    no object raises [AttributeError].  [items] is not read here. *)
Definition create_context (self : CircleCIClient) (context_name : string)
  : M (option string) :=
  let payload := CreatePayload context_name (client_org_id self) in
  log (CreatingContext context_name);;
  response ← _request self POST ContextCreate (Some payload);
  match response with
  | Some (Plain resp) =>
      match resp with
      | Some data =>
          match truthy_opt (get (fields data) "id") with
          | Some context_id =>
              log (CreatedContext context_name context_id);;
              mret (Some context_id)
          | None => log CreateNoId;; mret None
          end
      | None => log CreateParseFailed;; mret None
      end
  | Some (Odd NotAnObject) => raise AttributeError
  | Some (Odd (UnreadableItems data_fields)) =>
      match truthy_opt (get data_fields "id") with
      | Some context_id =>
          log (CreatedContext context_name context_id);;
          mret (Some context_id)
      | None => log CreateNoId;; mret None
      end
  | None => mret None
  end.

(** *** list_environment_variables (lines 239-278)

    As in [list_contexts]: lines 263-272 catch [ValueError] and
    [KeyError] only. *)
Fixpoint add_variables (its : list json_object) (variables : gset string)
  : option (gset string) :=
  match its with
  | [] => Some variables
  | item :: rest =>
      match get item "variable" with
      | Some v => add_variables rest ({[v]} ∪ variables)
      | None => None
      end
  end.

Fixpoint list_environment_variables_loop (fuel : nat) (self : CircleCIClient)
    (context_id : string) (variables : gset string)
    (next_page_token : option string) : M (gset string) :=
  match fuel with
  | O => out_of_fuel
  | S fuel' =>
      let current_endpoint :=
        EnvVarList context_id (truthy_opt next_page_token) in
      response ← _request self GET current_endpoint None;
      match response with
      | Some (Plain resp) =>
          match resp with
          | Some data =>
              match add_variables (default [] (items data)) variables with
              | Some variables' =>
                  match truthy_opt (get (fields data) "next_page_token") with
                  | Some tok =>
                      list_environment_variables_loop fuel' self context_id
                        variables' (Some tok)
                  | None => mret variables'
                  end
              | None => log (ParseEnvVarsFailed context_id);; mret ∅
              end
          | None => log (ParseEnvVarsFailed context_id);; mret ∅
          end
      | Some (Odd NotAnObject) => raise AttributeError
      | Some (Odd (UnreadableItems _)) => raise TypeError
      | None => log (RetrieveEnvVarsFailed context_id);; mret ∅
      end
  end.

Definition list_environment_variables (fuel : nat) (self : CircleCIClient)
    (context_id : string) : M (gset string) :=
  list_environment_variables_loop fuel self context_id ∅ None.

(** *** create_or_update_environment_variable (lines 281-313) *)
Definition coerce (var_value : yaml) : string :=
  match var_value with
  | YStr s => s
  | v => py_str v
  end.

(** The request of line 304. *)
Definition put_request (self : CircleCIClient) (context_id : string)
    (var : string * yaml) : Request :=
  mkRequest PUT (base_url self) (EnvVar context_id var.1)
    (Some (ValuePayload (coerce var.2))).

Definition create_or_update_environment_variable (self : CircleCIClient)
    (context_id var_name : string) (var_value : yaml) : M bool :=
  let payload := ValuePayload (coerce var_value) in
  response ← _request self PUT (EnvVar context_id var_name) (Some payload);
  match response with
  | Some _ => mret true
  | None => log (UpsertFailed var_name context_id);; mret false
  end.

(** *** main (lines 318-435) *)

(** Lines 412-432: the loop over one group's [variables_list]. *)
Fixpoint process_variables (client : CircleCIClient) (dry : bool)
    (context_name context_id : string) (existing_var_names : gset string)
    (variables_list : list yaml) : M unit :=
  match variables_list with
  | [] => mret tt
  | var_dict :: rest =>
      match var_dict with
      | YMap [(var_name, var_value)] =>
          let action := classify existing_var_names var_name in
          if dry then log (DryRunEnsure var_name context_name action)
          else
            success ← create_or_update_environment_variable
                        client context_id var_name var_value;
            if success : bool
            then log (VariableDone action var_name context_name)
            else log (VariableFailed var_name context_name)
      | _ => log (SkippingInvalidEntry context_name)
      end;;
      process_variables client dry context_name context_id
        existing_var_names rest
  end.

(** Lines 380-396: find or create the group.  [None] is the
    [continue]; otherwise the id to use and the snapshot, updated when
    the group was just created. *)
Definition ensure_context (client : CircleCIClient) (dry : bool)
    (existing_contexts : gmap string string) (context_name : string)
  : M (option (string * gmap string string)) :=
  log (ProcessingContext context_name);;
  match truthy_opt (existing_contexts !! context_name) with
  | Some context_id =>
      log (ContextExists context_name context_id);;
      mret (Some (context_id, existing_contexts))
  | None =>
      log (ContextNotFound context_name);;
      if dry then
        log (DryRunWouldCreate context_name);;
        mret (Some ("dry-run-new-id-" +:+ context_name, existing_contexts))
      else
        created ← create_context client context_name;
        match truthy_opt created with
        | Some context_id =>
            mret (Some (context_id, <[context_name := context_id]> existing_contexts))
        | None => log (SkippingContext context_name);; mret None
        end
  end.

(** One iteration of the loop of line 379. *)
Definition process_context (client : CircleCIClient) (dry : bool)
    (fuel : nat) (existing_contexts : gmap string string)
    (context_name : string) (variables_list : list yaml)
  : M (gmap string string) :=
  found ← ensure_context client dry existing_contexts context_name;
  match found with
  | None => mret existing_contexts
  | Some (context_id, existing_contexts') =>
      log (ProcessingVariables context_name context_id);;
      existing_var_names ←
        (if dry then mret ∅
         else list_environment_variables fuel client context_id);
      process_variables client dry context_name context_id
        existing_var_names variables_list;;
      mret existing_contexts'
  end.

(** The loop of line 379; the value is [existing_contexts] as the loop
    leaves it. *)
Fixpoint process_contexts (client : CircleCIClient) (dry : bool)
    (fuel : nat) (existing_contexts : gmap string string)
    (config_data : desired_state) : M (gmap string string) :=
  match config_data with
  | [] => mret existing_contexts
  | (context_name, variables_list) :: rest =>
      existing_contexts' ← process_context client dry fuel
                             existing_contexts context_name variables_list;
      process_contexts client dry fuel existing_contexts' rest
  end.

(** Lines 366-375. *)
Definition fetch_existing (client : CircleCIClient) (dry : bool)
    (fuel : nat) (config_data : desired_state) : M (gmap string string) :=
  log FetchingContexts;;
  if dry then
    log DryRunSimulatedFetch;;
    mret (simulated_contexts config_data)
  else
    existing_contexts ← list_contexts fuel client;
    match existing_contexts with
    | None => log AbortNoContexts;; sys_exit 1
    | Some d => mret d
    end.

(** Lines 347-435, from the parsed arguments on; the exits of
    [parse_args] itself come before.  [api_token] is what
    [get_api_token()] returned, [file] what is at [args.config];
    [fuel] bounds each listing loop. *)
Definition main (args : Args) (api_token : option string)
    (file : config_file) (fuel : nat) : M unit :=
  api_token ← match truthy_opt api_token with
               | Some t => mret t
               | None => sys_exit 1
               end;
  config_data ← (let '(loaded, lines) := load_config_yaml file in
                  (fun r => (Ret loaded, r, map Log lines)) : M _);
  config_data ← match config_data with
                 | Some (g :: gs) => mret (g :: gs)
                 | Some [] | None => sys_exit 1
                 end;
  (if dry_run args then log DryRunEnabled else mret tt);;
  client ← match CircleCIClient_init api_token (org_id args) with
            | inr c => mret c
            | inl _ => log ClientInitFailed;; sys_exit 1
            end;
  existing_contexts ← fetch_existing client (dry_run args) fuel config_data;
  process_contexts client (dry_run args) fuel existing_contexts config_data;;
  log ScriptFinished.

End Client.

Arguments M Remote A : clear implicits.

(** Whatever the state of the remote, every event [m] emits satisfies
    [P], a value it returns satisfies [Q] and a status it exits with
    satisfies [E]; of a computation that raises or is still in a loop
    only the events are held to [P]. *)
Definition always {Remote A : Type} (m : M Remote A)
    (P : Event -> Prop) (Q : A -> Prop) (E : Z -> Prop) : Prop :=
  ∀ r, Forall P (m r).2
       ∧ match (m r).1.1 with
         | Ret a => Q a
         | SysExit code => E code
         | OutOfFuel => True
         | Raised _ => True
         end.

(** An answer whose body is JSON of a shape the client does not
    expect. *)
Definition odd (out : outcome) : bool :=
  match out with
  | RequestExceptionOdd _ | ReturnedOdd _ => true
  | RequestException _ | Returned _ => false
  end.

(** [m] is ended by an exception only after the remote gave such an
    answer. *)
Definition raises_on_odd {Remote A : Type} (m : M Remote A) : Prop :=
  ∀ r e, (m r).1.1 = Raised e ->
    ∃ req out, Http req out ∈ (m r).2 ∧ odd out = true.

(** ** Reading a trace *)

Definition requests (t : list Event) : list Request :=
  omap (fun e => match e with Http req _ => Some req | Log _ => None end) t.

Definition log_lines (t : list Event) : list log_msg :=
  omap (fun e => match e with Log m => Some m | Http _ _ => None end) t.

Definition is_post (req : Request) : bool :=
  match req_method req with POST => true | _ => false end.

Definition is_put (req : Request) : bool :=
  match req_method req with PUT => true | _ => false end.

(** The calls to the creation and to the upsert endpoint in a trace. *)
Definition creations (t : list Event) : list Request :=
  filter (fun req => is_post req = true) (requests t).

Definition upserts (t : list Event) : list Request :=
  filter (fun req => is_put req = true) (requests t).

(** Exit status of the process for the outcome of [main]; the
    interpreter ends with status 1 on an uncaught exception. *)
Definition exit_status (res : Result unit) : option Z :=
  match res with
  | Ret _ => Some 0%Z
  | SysExit code => Some code
  | OutOfFuel => None
  | Raised _ => Some 1%Z
  end.


(** The (name, value) pairs of a group's list: its single-pair items. *)
Definition var_entries (variables_list : list yaml) : list (string * yaml) :=
  omap (fun item => match item with
                    | YMap [(var_name, var_value)] => Some (var_name, var_value)
                    | _ => None
                    end) variables_list.

(** The item has every field of [keys]. *)
Definition has_keys (keys : list string) (item : json_object) : bool :=
  forallb (fun key => bool_decide (is_Some (get item key))) keys.

(** A listing answer the client gives up on: no usable response, a body
    that is not JSON, or an item without one of the fields it reads. *)
Definition page_fails (keys : list string) (out : outcome) : bool :=
  match out with
  | RequestException _ => true
  | Returned None => true
  | Returned (Some data) =>
      negb (forallb (has_keys keys) (default [] (items data)))
  | RequestExceptionOdd _ => true
  | ReturnedOdd _ => true
  end.

Definition listing_failed (keys : list string) (t : list Event) : Prop :=
  ∃ req out, Http req out ∈ t ∧ page_fails keys out = true.

(** ** A scripted remote

    The remote answers the requests it receives with a prepared list of
    answers, whatever is asked; once the list is used up no request gets
    through. *)
Definition Script : Type := list outcome.

Definition serve_script (s : Script) (req : Request) : outcome * Script :=
  match s with
  | [] => (RequestException None, [])
  | out :: rest => (out, rest)
  end.

(** A well-formed page of the group listing. *)
Record page : Type := mkPage {
  page_items : list (string * string);     (* (name, id) *)
  page_token : option string               (* next_page_token *)
}.

Definition context_item (ni : string * string) : json_object :=
  [("id", ni.2); ("name", ni.1)].

Definition page_body (p : page) : json_body :=
  mkBody match page_token p with
         | Some t => [("next_page_token", t)]
         | None => []
         end
         (Some (map context_item (page_items p))).

Definition page_response (p : page) : outcome := Returned (Some (page_body p)).

(** Every page but the last carries a token, the last one none. *)
Fixpoint paginated (pages : list page) : Prop :=
  match pages with
  | [] => False
  | [p] => truthy_opt (page_token p) = None
  | p :: rest => is_Some (truthy_opt (page_token p)) ∧ paginated rest
  end.

(** The request for page [i] of the listing, given the token the page
    before it carried. *)
Definition list_request (self : CircleCIClient) (token : option string)
  : Request :=
  mkRequest GET (base_url self) (ContextList (client_org_id self) token) None.

Fixpoint page_requests (self : CircleCIClient) (token : option string)
    (pages : list page) : list Request :=
  match pages with
  | [] => []
  | p :: rest =>
      list_request self token :: page_requests self (truthy_opt (page_token p)) rest
  end.

(** [dict] built by assigning the items in order: a later item replaces
    an earlier one of the same name. *)
Definition dict_of_items (its : list (string * string)) : gmap string string :=
  foldl (fun d ni => <[ni.1 := ni.2]> d) ∅ its.

(** ** A reference remote

    The directory of one organisation, after the table of the remote API:
    groups by name, each with the names of its variables.  A new group
    gets an id derived from its name; a listing comes back in one page. *)
Definition Directory : Type := list (string * list string).

Definition id_of (name : string) : string := "ctx-" +:+ name.

Definition has_id (context_id : string) (g : string * list string) : bool :=
  String.eqb (id_of g.1) context_id.

Definition add_var (v : string) (vars : list string) : list string :=
  if existsb (String.eqb v) vars then vars else (vars ++ [v])%list.

Fixpoint put_var (context_id v : string) (d : Directory) : option Directory :=
  match d with
  | [] => None
  | g :: rest =>
      if has_id context_id g then Some ((g.1, add_var v g.2) :: rest)
      else cons g <$> put_var context_id v rest
  end.

Definition serve_directory (d : Directory) (req : Request)
  : outcome * Directory :=
  match req_method req, req_endpoint req, req_json req with
  | GET, ContextList _ _, _ =>
      (Returned (Some (mkBody [] (Some (map (fun g => context_item (g.1, id_of g.1)) d)))), d)
  | POST, ContextCreate, Some (CreatePayload name _) =>
      if existsb (fun g => String.eqb g.1 name) d
      then (RequestException (Some 400%Z), d)
      else (Returned (Some (mkBody [("id", id_of name); ("name", name)] None)),
            (d ++ [(name, [])])%list)
  | GET, EnvVarList context_id _, _ =>
      match find (has_id context_id) d with
      | Some g =>
          (Returned (Some (mkBody [] (Some (map (fun v => [("variable", v)]) g.2)))), d)
      | None => (RequestException (Some 404%Z), d)
      end
  | PUT, EnvVar context_id v, Some (ValuePayload _) =>
      match put_var context_id v d with
      | Some d' => (Returned (Some (mkBody [("variable", v)] None)), d')
      | None => (RequestException (Some 404%Z), d)
      end
  | _, _, _ => (RequestException (Some 404%Z), d)
  end.

(** ** The shape of a desired-state document, as the interface states it *)

(** Each list item has exactly one key, each value under a group is a
    list, the root is a mapping. *)
Definition single_entry (item : yaml) : Prop :=
  ∃ key value, item = YMap [(key, value)].

Definition group_shape (value : yaml) : Prop :=
  ∃ its, value = YSeq its ∧ Forall single_entry its.

Definition document_shape (doc : yaml) : Prop :=
  ∃ groups, doc = YMap groups ∧ Forall (fun g => group_shape g.2) groups.

(** The desired state a well-shaped document stands for. *)
Definition group_items (value : yaml) : list yaml :=
  match value with
  | YSeq its => its
  | _ => []
  end.

Definition document_state (doc : yaml) : desired_state :=
  match doc with
  | YMap groups => map (fun g => (g.1, group_items g.2)) groups
  | _ => []
  end.

(** An error line that names a group of the document that really is
    ill-formed, with the message that goes with its defect. *)
Definition rejects (groups : list (string * yaml)) (e : log_msg) : Prop :=
  ∃ ctx_name value, (ctx_name, value) ∈ groups ∧
    ((∀ its, value ≠ YSeq its) ∧ e = InvalidContextFormat ctx_name
     ∨ (∃ its, value = YSeq its ∧ ¬ Forall single_entry its)
       ∧ e = InvalidVariableFormat ctx_name).

(** The log lines [_request] writes for a failed request. *)
Definition failure_lines (req : Request) (status : option Z) : list Event :=
  Log (ApiRequestFailed (req_method req) (req_url req))
  :: match status with
     | Some code => [Log (StatusCode code); Log ErrorDetails]
     | None => [Log ErrorNoResponse]
     end.

(** A property of events that holds of every request and of every log
    line but the abort line of [main]. *)
Definition spares_abort (P : Event -> Prop) : Prop :=
  (∀ req out, P (Http req out)) ∧ ∀ m, m ≠ AbortNoContexts → P (Log m).

(** ** The decision log of a dry run

    What a dry run writes, read off [main] with [args.dry_run] set: no
    part of it consults the remote. *)
Definition dry_variable_line (context_name : string) (names : gset string)
    (item : yaml) : log_msg :=
  match item with
  | YMap [(var_name, _)] =>
      DryRunEnsure var_name context_name (classify names var_name)
  | _ => SkippingInvalidEntry context_name
  end.

Definition dry_group_lines (existing_contexts : gmap string string)
    (g : string * list yaml) : list log_msg :=
  (ProcessingContext g.1
   :: match truthy_opt (existing_contexts !! g.1) with
      | Some context_id =>
          [ContextExists g.1 context_id; ProcessingVariables g.1 context_id]
      | None =>
          [ContextNotFound g.1; DryRunWouldCreate g.1;
           ProcessingVariables g.1 ("dry-run-new-id-" +:+ g.1)]
      end)
  ++ map (dry_variable_line g.1 ∅) g.2.

Definition dry_run_report (args : Args) (api_token : option string)
    (file : config_file) : Result unit * list log_msg :=
  match truthy_opt api_token with
  | None => (SysExit 1, [])
  | Some token =>
      match load_config_yaml file with
      | (Some (g :: gs), lines) =>
          match CircleCIClient_init token (org_id args) with
          | inl _ => (SysExit 1, lines ++ [DryRunEnabled; ClientInitFailed])
          | inr _ =>
              (Ret tt,
               lines ++ [DryRunEnabled; FetchingContexts; DryRunSimulatedFetch]
               ++ flat_map (dry_group_lines (simulated_contexts (g :: gs))) (g :: gs)
               ++ [ScriptFinished])
          end
      | (_, lines) => (SysExit 1, lines)
      end
  end%list.

(** The variables a dry run reports: name, group and label of every
    line of line 423, in the order of the trace. *)
Definition ensured (t : list Event) : list (string * string * action) :=
  omap (fun e => match e with
                 | Log (DryRunEnsure var_name context_name a) =>
                     Some (var_name, context_name, a)
                 | _ => None
                 end) t.

(** The request of line 220. *)
Definition create_request (self : CircleCIClient) (context_name : string)
  : Request :=
  mkRequest POST (base_url self) ContextCreate
    (Some (CreatePayload context_name (client_org_id self))).

(** The request for a page of a group's variable listing. *)
Definition vars_request (self : CircleCIClient) (context_id : string)
    (token : option string) : Request :=
  mkRequest GET (base_url self) (EnvVarList context_id token) None.


(** ** Reading the reference remote *)

(** The group a request for [name]'s id lands on. *)
Definition group_of (d : Directory) (name : string)
  : option (string * list string) :=
  find (has_id (id_of name)) d.


(** Every desired group is in the directory, with every desired
    variable. *)
Definition covers (d : Directory) (config_data : desired_state) : Prop :=
  ∀ g, g ∈ config_data ->
    ∃ grp, group_of d g.1 = Some grp
           ∧ ∀ e, e ∈ var_entries g.2 -> e.1 ∈ grp.2.

(** The directory only grew: the groups are still there, with their
    variables. *)
Definition grew (d d' : Directory) : Prop :=
  ∀ name grp, group_of d name = Some grp ->
    ∃ grp', group_of d' name = Some grp' ∧ ∀ v, v ∈ grp.2 -> v ∈ grp'.2.



(** ** get_api_token (lines 26-71) *)

(** The lines [get_api_token] writes. *)
Inductive token_log : Type :=
| AttemptFile            (* "Attempting to read token from <cli.yml>" *)
| TokenFromFile          (* "Successfully read token from <cli.yml>" *)
| TokenKeyMissing        (* "Token key not found or empty in <cli.yml>" *)
| TokenParseError        (* "Error parsing YAML file <cli.yml>" *)
| TokenReadError         (* "Could not read file <cli.yml>" *)
| AttemptEnv             (* "Attempting to read token from environment variable" *)
| TokenFromEnv           (* "Successfully read token from environment variable" *)
| TokenNotFound          (* "CircleCI API token not found." *)
| TokenHintFile          (* "Please ensure it's set in <cli.yml> ..." *)
| TokenHintEnv.          (* "or as the environment variable CI_TOKEN." *)

(** Python's truth value of a loaded value. *)
Definition yaml_truthy (v : yaml) : bool :=
  match v with
  | YNull => false
  | YBool b => b
  | YInt z => negb (z =? 0)%Z
  | YStr s => truthy s
  | YSeq l => match l with [] => false | _ => true end
  | YMap kv => match kv with [] => false | _ => true end
  end.

(** [if token:] on a value that may be [None]. *)
Definition truthy_value (o : option yaml) : option yaml :=
  match o with
  | Some v => if yaml_truthy v then Some v else None
  | None => None
  end.

(** [config_data.get(key)]: an absent key and a key bound to null both
    read as [None]. *)
Fixpoint yaml_get (kv : list (string * yaml)) (key : string) : option yaml :=
  match kv with
  | [] => None
  | (k, v) :: rest =>
      if String.eqb k key
      then match v with YNull => None | _ => Some v end
      else yaml_get rest key
  end.

(** [cli_yml] is what is at [~/.circleci/cli.yml], [environ] the value
    of [CI_TOKEN] in the environment; a token read from the environment
    is text. *)
Definition get_api_token (cli_yml : config_file) (environ : option string)
  : option yaml * list token_log :=
  (* lines 35-55 *)
  let '(token, lines) :=
    match cli_yml with
    | NotAFile => (None, [])
    | Unreadable => (None, [AttemptFile; TokenReadError])
    | Malformed => (None, [AttemptFile; TokenParseError])
    | Parsed config_data =>
        let token :=
          match config_data with
          | YMap kv => yaml_get kv "token"
          | _ => None
          end in
        (token,
         [AttemptFile;
          match truthy_value token with
          | Some _ => TokenFromFile
          | None => TokenKeyMissing
          end])
    end in
  (* lines 59-63 *)
  let '(token, lines) :=
    match truthy_value token with
    | Some _ => (token, lines)
    | None =>
        let token := YStr <$> environ in
        (token,
         lines ++ AttemptEnv :: match truthy_value token with
                                | Some _ => [TokenFromEnv]
                                | None => []
                                end)
    end in
  (* lines 65-71 *)
  match truthy_value token with
  | Some t => (Some t, lines)
  | None => (None, lines ++ [TokenNotFound; TokenHintFile; TokenHintEnv])
  end.

(** The token the credential file holds, when it holds one. *)
Definition file_token (cli_yml : config_file) : option yaml :=
  match cli_yml with
  | Parsed (YMap kv) => truthy_value (yaml_get kv "token")
  | _ => None
  end.

(** ** Reading the loader and the set-up of [main] *)

(** The error line the loader writes for a group whose value is
    ill-formed: line 102 for a value that is no list, line 106 for a
    list. *)
Definition value_error (ctx_name : string) (value : yaml) : log_msg :=
  match value with
  | YSeq _ => InvalidVariableFormat ctx_name
  | _ => InvalidContextFormat ctx_name
  end.

(** Lines 348-364 of [main] let the run through: a token, a document
    that loads and is not empty, an organisation id. *)
Definition setup_ok (args : Args) (api_token : option string)
    (file : config_file) : bool :=
  match truthy_opt api_token, (load_config_yaml file).1 with
  | Some _, Some (_ :: _) => truthy (org_id args)
  | _, _ => false
  end.

(** ** Reading the events of a run *)

(** The lines written by the methods of [CircleCIClient]. *)
Definition client_line (m : log_msg) : bool :=
  match m with
  | ApiRequestFailed _ _ | StatusCode _ | ErrorDetails | ErrorNoResponse
  | ParseContextsFailed | RetrieveContextsFailed | FoundContexts _ _
  | CreatingContext _ | CreatedContext _ _ | CreateNoId | CreateParseFailed
  | ParseEnvVarsFailed _ | RetrieveEnvVarsFailed _ | UpsertFailed _ _ => true
  | _ => false
  end.

(** [snapshot] still holds every usable entry of [snapshot0]. *)
Definition extends (snapshot0 snapshot : gmap string string) : Prop :=
  ∀ name id, truthy_opt (snapshot0 !! name) = Some id ->
             truthy_opt (snapshot !! name) = Some id.

(** A request the loop of line 379 may send for the desired state
    [config_data] when it starts from [snapshot]: it is about a group of
    the desired state, under the id the snapshot has for it when it has
    one, and it is the creation of that group when the snapshot does not
    have it, a page of the listing of its variables, or the upsert of
    one of its desired variables. *)
Definition desired_request (py_str : yaml -> string) (client : CircleCIClient)
    (config_data : desired_state) (snapshot : gmap string string)
    (req : Request) : Prop :=
  ∃ context_name variables_list context_id,
    (context_name, variables_list) ∈ config_data
    ∧ (∀ id, truthy_opt (snapshot !! context_name) = Some id -> context_id = id)
    ∧ ((req = create_request client context_name
        ∧ truthy_opt (snapshot !! context_name) = None)
       ∨ (∃ token, req = vars_request client context_id token)
       ∨ (∃ var, var ∈ var_entries variables_list
                 ∧ req = put_request py_str client context_id var)).

(** An event of that loop: a desired request, or a line; the line of
    line 414 only for a group with an item that is no single pair. *)
Definition desired_event (py_str : yaml -> string) (client : CircleCIClient)
    (config_data : desired_state) (snapshot : gmap string string)
    (e : Event) : Prop :=
  match e with
  | Http req _ => desired_request py_str client config_data snapshot req
  | Log (SkippingInvalidEntry context_name) =>
      ∃ variables_list item,
        (context_name, variables_list) ∈ config_data
        ∧ item ∈ variables_list ∧ is_single_pair item = false
  | Log _ => True
  end.

(** An event of a whole run: a page of the listing of the groups or a
    request for the desired state the document at [file] holds, with the
    client of this run; or a line other than that of line 414. *)
Definition run_event (py_str : yaml -> string) (args : Args)
    (api_token : option string) (file : config_file) (e : Event) : Prop :=
  match e with
  | Http req _ =>
      ∃ token config_data,
        api_token = Some token
        ∧ (load_config_yaml file).1 = Some config_data
        ∧ let client := mkClient CIRCLECI_API_BASE_URL (org_id args) token in
          (∃ page_token, req = list_request client page_token)
          ∨ desired_request py_str client config_data ∅ req
  | Log m => ∀ context_name, m ≠ SkippingInvalidEntry context_name
  end.

(** ** The ids a run works with *)

(** The id an answer to a creation carries, as lines 226-227 read it. *)
Definition created_id (out : outcome) : option string :=
  match out with
  | Returned (Some data) => truthy_opt (get (fields data) "id")
  | ReturnedOdd (UnreadableItems data_fields) =>
      truthy_opt (get data_fields "id")
  | _ => None
  end.

(** With [e] the remote gives [context_id] as the id of the group
    [context_name]: in an item of a page of the listing of the groups,
    or in its answer to the creation of the group. *)
Definition supplies (client : CircleCIClient) (e : Event)
    (context_name context_id : string) : Prop :=
  match e with
  | Http req out =>
      (∃ page_token data item,
         req = list_request client page_token ∧ out = Returned (Some data)
         ∧ item ∈ default [] (items data)
         ∧ get item "name" = Some context_name
         ∧ get item "id" = Some context_id)
      ∨ (req = create_request client context_name
         ∧ created_id out = Some context_id)
  | Log _ => False
  end.

(** Some event of [t] does. *)
Definition supplied (client : CircleCIClient) (t : list Event)
    (context_name context_id : string) : Prop :=
  ∃ e, e ∈ t ∧ supplies client e context_name context_id.

(** A request of the client for the desired state, whose context id -
    when it has one - is an id [known] for the group it is made for. *)
Definition backed_request (py_str : yaml -> string) (client : CircleCIClient)
    (config_data : desired_state) (known : string -> string -> Prop)
    (req : Request) : Prop :=
  (∃ page_token, req = list_request client page_token)
  ∨ ∃ context_name variables_list,
      (context_name, variables_list) ∈ config_data
      ∧ (req = create_request client context_name
         ∨ ∃ context_id,
             known context_name context_id
             ∧ ((∃ page_token, req = vars_request client context_id page_token)
                ∨ (∃ var, var ∈ var_entries variables_list
                          ∧ req = put_request py_str client context_id var))).

(** Every request of [t] is backed by what was known before [t] or
    by what the remote supplied earlier in [t]. *)
Fixpoint backed (py_str : yaml -> string) (client : CircleCIClient)
    (config_data : desired_state) (known : string -> string -> Prop)
    (t : list Event) : Prop :=
  match t with
  | [] => True
  | e :: t' =>
      match e with
      | Http req _ => backed_request py_str client config_data known req
      | Log _ => True
      end
      ∧ backed py_str client config_data
          (fun name id => known name id ∨ supplies client e name id) t'
  end.

(** Started with the ids of [pre] known, [m] sends backed requests
    only, and the ids of [post] are known when it returns. *)
Definition provided {Remote A : Type} (py_str : yaml -> string)
    (client : CircleCIClient) (config_data : desired_state)
    (m : M Remote A) (pre : string -> string -> Prop)
    (post : A -> string -> string -> Prop) : Prop :=
  ∀ (known : string -> string -> Prop) r,
    (∀ name id, pre name id -> known name id) ->
    backed py_str client config_data known (m r).2
    ∧ match (m r).1.1 with
      | Ret a => ∀ name id, post a name id ->
                   known name id ∨ supplied client (m r).2 name id
      | _ => True
      end.

(** ** Pages of a listing, as JSON bodies *)

(** The names a page of a variable listing carries, and the token it
    hands on ([None] when it has none, or an empty one). *)
Definition body_names (data : json_body) : list string :=
  omap (fun item => get item "variable") (default [] (items data)).

Definition next_token (data : json_body) : option string :=
  truthy_opt (get (fields data) "next_page_token").

(** Every page but the last hands on a token, the last one none. *)
Fixpoint chained (bodies : list json_body) : Prop :=
  match bodies with
  | [] => False
  | [data] => next_token data = None
  | data :: rest => is_Some (next_token data) ∧ chained rest
  end.

(** The requests that fetch the pages, each with the token of the page
    before it. *)
Fixpoint vars_requests (self : CircleCIClient) (context_id : string)
    (token : option string) (bodies : list json_body) : list Request :=
  match bodies with
  | [] => []
  | data :: rest =>
      vars_request self context_id token
      :: vars_requests self context_id (next_token data) rest
  end.

(** ** Runs against a remote with finitely or endlessly many pages *)

(** Against the scripted remote [m] comes to an end - it returns or
    exits - whenever fewer than [fuel] answers are left, and it leaves
    no more answers than it found. *)
Definition ends_within (fuel : nat) {A : Type} (m : M Script A) : Prop :=
  ∀ s : Script, (length s < fuel)%nat ->
    (m s).1.1 ≠ OutOfFuel ∧ (length (m s).1.2 ≤ length s)%nat.

(** A remote that, from any state in [I], answers every request with a
    page whose items have the fields [keys] and that hands on a token. *)
Definition always_more {Remote : Type}
    (serve : Remote -> Request -> outcome * Remote) (keys : list string)
    (I : Remote -> Prop) : Prop :=
  ∀ r req, I r ->
    ∃ data r', serve r req = (Returned (Some data), r') ∧ I r'
               ∧ forallb (has_keys keys) (default [] (items data)) = true
               ∧ is_Some (next_token data).

(** ** The groups a run takes up *)


(** The lines [main] writes inside one turn of its loop, after the
    announcement. *)
Definition group_line (m : log_msg) : bool :=
  match m with
  | ContextExists _ _ | ContextNotFound _ | DryRunWouldCreate _
  | SkippingContext _ | ProcessingVariables _ _ | SkippingInvalidEntry _
  | DryRunEnsure _ _ _ | VariableDone _ _ _ | VariableFailed _ _ => true
  | _ => false
  end.

(** * Properties *)

(** ** The loader *)

Lemma is_single_pair_spec (item : yaml) :
  is_single_pair item = true ↔ single_entry item.
Proof.
  split.
  - destruct item as [| | | | |kv]; try discriminate.
    destruct kv as [|[key value] [|]]; try discriminate.
    intros _. by exists key, value.
  - by intros (key & value & ->).
Qed.

Lemma forallb_single_pair (its : list yaml) :
  forallb is_single_pair its = true ↔ Forall single_entry its.
Proof.
  rewrite forallb_forall, Forall_forall.
  split; intros H x Hx; apply is_single_pair_spec, H;
    by apply list_elem_of_In.
Qed.

Lemma validate_contexts_spec (groups : list (string * yaml)) :
  match validate_contexts groups with
  | inr cfg =>
      Forall (fun g => group_shape g.2) groups
      ∧ cfg = map (fun g => (g.1, group_items g.2)) groups
  | inl e => ¬ Forall (fun g => group_shape g.2) groups ∧ rejects groups e
  end.
Proof.
  induction groups as [|[ctx_name value] rest IH]; simpl.
  { by split. }
  assert (Hbad : ∀ e,
    ¬ group_shape value →
    ((∀ its, value ≠ YSeq its) ∧ e = InvalidContextFormat ctx_name
     ∨ (∃ its, value = YSeq its ∧ ¬ Forall single_entry its)
       ∧ e = InvalidVariableFormat ctx_name) →
    ¬ Forall (fun g => group_shape g.2) ((ctx_name, value) :: rest)
    ∧ rejects ((ctx_name, value) :: rest) e).
  { intros e Hno Hwhy. split.
    - intros Hall. apply Hno. by inversion Hall.
    - exists ctx_name, value. split; [left|done]. }
  destruct value as [| | | |its|]; try
    (apply Hbad; [by intros (its & ? & _) | left; split; [by intros its|done]]).
  destruct (forallb is_single_pair its) eqn:Hits.
  - apply forallb_single_pair in Hits.
    destruct (validate_contexts rest) as [e|cfg].
    + destruct IH as [Hno (g & v & Hin & Hwhy)]. split.
      * intros Hall. apply Hno. by inversion Hall.
      * exists g, v. split; [by right|done].
    + destruct IH as [Hall ->]. split; [|done].
      constructor; [|done]. by exists its.
  - apply Hbad.
    + intros (its' & [= <-] & Hall).
      apply forallb_single_pair in Hall. congruence.
    + right. split; [|done]. exists its. split; [done|].
      intros Hall. apply forallb_single_pair in Hall. congruence.
Qed.

(** ** Running a computation *)

Section Runs.

Context {Remote : Type}.
Implicit Types (P : Event -> Prop) (r : Remote).

Lemma run_bind {A B} (m : M Remote A) (f : A -> M Remote B) r :
  (m ≫= f) r =
  match m r with
  | (Ret a, r1, t1) =>
      match f a r1 with
      | (x, r2, t2) => (x, r2, (t1 ++ t2)%list)
      end
  | (SysExit c, r1, t1) => (SysExit c, r1, t1)
  | (OutOfFuel, r1, t1) => (OutOfFuel, r1, t1)
  | (Raised e, r1, t1) => (Raised e, r1, t1)
  end.
Proof. reflexivity. Qed.

Lemma run_bind_ret {A B} (m : M Remote A) (f : A -> M Remote B) r a r1 t1 :
  m r = (Ret a, r1, t1) ->
  (m ≫= f) r = ((f a r1).1.1, (f a r1).1.2, (t1 ++ (f a r1).2)%list).
Proof. intros H. rewrite run_bind, H. by destruct (f a r1) as [[] ?]. Qed.

Lemma always_ret {A} (a : A) P (Q : A -> Prop) E :
  Q a -> always (mret a : M Remote A) P Q E.
Proof. intros H r. by split; [constructor|]. Qed.

Lemma always_log m P (Q : unit -> Prop) E :
  P (Log m) -> Q tt -> always (log m : M Remote unit) P Q E.
Proof. intros HP HQ r. by split; [repeat constructor|]. Qed.

Lemma always_sys_exit {A} code P (Q : A -> Prop) (E : Z -> Prop) :
  E code -> always (sys_exit code : M Remote A) P Q E.
Proof. intros H r. by split; [constructor|]. Qed.

Lemma always_out_of_fuel {A} P (Q : A -> Prop) E :
  always (out_of_fuel : M Remote A) P Q E.
Proof. intros r. by split; [constructor|]. Qed.

Lemma always_raise {A} e P (Q : A -> Prop) E :
  always (raise e : M Remote A) P Q E.
Proof. intros r. by split; [constructor|]. Qed.

Lemma always_bind {A B} (m : M Remote A) (f : A -> M Remote B) P
    (Q : A -> Prop) (Q' : B -> Prop) E :
  always m P Q E -> (∀ a, Q a -> always (f a) P Q' E) ->
  always (m ≫= f) P Q' E.
Proof.
  intros Hm Hf r. rewrite run_bind.
  destruct (Hm r) as [Ht Ha]. destruct (m r) as [[[a| | |] r1] t1]; simpl in *.
  - destruct (Hf a Ha r1) as [Ht' Ha'].
    destruct (f a r1) as [[x r2] t2]; simpl in *.
    split; [by apply Forall_app|done].
  - done.
  - done.
  - done.
Qed.

Lemma always_weaken {A} (m : M Remote A) P P' (Q Q' : A -> Prop) (E E' : Z -> Prop) :
  always m P Q E -> (∀ e, P e -> P' e) -> (∀ a, Q a -> Q' a) ->
  (∀ c, E c -> E' c) -> always m P' Q' E'.
Proof.
  intros Hm HP HQ HE r. destruct (Hm r) as [Ht Ha]. split.
  - eapply Forall_impl; eauto.
  - destruct ((m r).1.1); auto.
Qed.

End Runs.

(** One step of a proof that a computation only emits events in [P]:
    split the sequencing, settle the primitive steps, go by cases on
    what the code tests. *)
Ltac always_step :=
  lazymatch goal with
  | |- always (mret _) _ _ _ => apply always_ret
  | |- always (log _) _ _ _ => apply always_log
  | |- always (sys_exit _) _ _ _ => apply always_sys_exit
  | |- always out_of_fuel _ _ _ => apply always_out_of_fuel
  | |- always (raise _) _ _ _ => apply always_raise
  | |- always (_ ≫= _) _ _ _ =>
      eapply (always_bind _ _ _ (fun _ => True)); [|intros ? _]
  | |- always (match ?x with _ => _ end) _ _ _ => destruct x
  end.

Section ClientFacts.

Context {Remote : Type}.
Variable serve : Remote -> Request -> outcome * Remote.
Variable py_str : yaml -> string.
Implicit Types (P : Event -> Prop) (r : Remote) (self client : CircleCIClient).

(** [main] stops at the door when the file does not load: status 1,
    the remote untouched, nothing sent. *)
Lemma main_rejected args api_token file fuel r :
  (load_config_yaml file).1 = None ->
  let run := main serve py_str args api_token file fuel r in
  run.1.1 = SysExit 1 ∧ run.1.2 = r ∧ requests run.2 = [].
Proof.
  intros Hload. unfold main. rewrite run_bind.
  destruct (truthy_opt api_token) as [tok|]; [|done]. simpl.
  rewrite run_bind.
  destruct (load_config_yaml file) as [loaded lines]. simpl in *. subst.
  simpl. rewrite app_nil_r. repeat split.
  unfold requests. by induction lines.
Qed.

End ClientFacts.

(** C7. The loader accepts exactly the documents of the stated shape - a
    mapping at the root, a list under every group, a single-pair mapping
    for every item - and hands them back as the desired state.  Any
    other document is turned down with one error line: the root error
    when the root is no mapping, otherwise a line that names an
    ill-formed group and says whether its value is no list or one of its
    items is no single pair.  A run on such a document exits with status
    1 without sending a request. *)
Theorem document_validation (doc : yaml) :
  (document_shape doc ->
   load_config_yaml (Parsed doc) = (Some (document_state doc), [ConfigLoaded]))
  ∧ (¬ document_shape doc ->
     (∃ e, load_config_yaml (Parsed doc) = (None, [e])
           ∧ match doc with
             | YMap groups => rejects groups e
             | _ => e = InvalidRoot
             end)
     ∧ ∀ (Remote : Type) (serve : Remote -> Request -> outcome * Remote)
         py_str args api_token fuel r,
         (main serve py_str args api_token (Parsed doc) fuel r).1.1 = SysExit 1
         ∧ requests (main serve py_str args api_token (Parsed doc) fuel r).2 = []).
Proof.
  assert (Hload : ¬ document_shape doc ->
     ∃ e, load_config_yaml (Parsed doc) = (None, [e])
          ∧ match doc with
            | YMap groups => rejects groups e
            | _ => e = InvalidRoot
            end).
  { intros Hno.
    destruct doc as [| | | | |groups]; try by eexists.
    simpl. pose proof (validate_contexts_spec groups) as Hv.
    destruct (validate_contexts groups) as [e|cfg].
    - exists e. by destruct Hv.
    - destruct Hno. exists groups. by destruct Hv. }
  split.
  - intros (groups & -> & Hall). simpl.
    pose proof (validate_contexts_spec groups) as Hv.
    destruct (validate_contexts groups) as [e|cfg].
    + by destruct Hv.
    + by destruct Hv as [_ ->].
  - intros Hno. split; [by apply Hload|].
    intros Remote serve py_str args api_token fuel r.
    destruct (Hload Hno) as (e & He & _).
    destruct (main_rejected serve py_str args api_token (Parsed doc) fuel r)
      as (? & _ & ?); [by rewrite He|done].
Qed.

(** ** The client *)

Ltac always_auto :=
  repeat (first [ progress always_step
                | match goal with
                  | H : spares_abort ?P |- ?P (Log _) => by apply H
                  | H : spares_abort ?P |- ?P (Http _ _) => by apply H
                  end
                | done ]).

Section ClientRuns.

Context {Remote : Type}.
Variable serve : Remote -> Request -> outcome * Remote.
Variable py_str : yaml -> string.
Implicit Types (P : Event -> Prop) (r : Remote) (self client : CircleCIClient).

Lemma _request_run self method endpoint json r :
  _request serve self method endpoint json r =
  let req := mkRequest method (base_url self) endpoint json in
  match serve r req with
  | (Returned resp, r') =>
      (Ret (Some (Plain resp)), r', [Http req (Returned resp)])
  | (ReturnedOdd body, r') =>
      (Ret (Some (Odd body)), r', [Http req (ReturnedOdd body)])
  | (RequestException status, r') =>
      (Ret None, r', Http req (RequestException status) :: failure_lines req status)
  | (RequestExceptionOdd status_code, r') =>
      (Raised AttributeError, r',
       [Http req (RequestExceptionOdd status_code);
        Log (ApiRequestFailed method (req_url req));
        Log (StatusCode status_code)])
  end.
Proof.
  unfold _request, send. rewrite run_bind. simpl.
  destruct (serve r _) as [[[code|]|resp|code|body] r']; reflexivity.
Qed.

(** No client operation exits or writes the abort line. *)
Lemma _request_always self method endpoint json P E :
  spares_abort P ->
  always (_request serve self method endpoint json) P (fun _ => True) E.
Proof.
  intros [Hhttp Hlog] r. rewrite _request_run. simpl.
  destruct (serve r _) as [[[code|]|resp|code|body] r']; simpl; split;
    try done; repeat constructor; auto.
Qed.

Lemma list_contexts_loop_always fuel self contexts token P E :
  spares_abort P ->
  always (list_contexts_loop serve fuel self contexts token) P
         (fun res => res ≠ None) E.
Proof.
  intros HP. revert contexts token.
  induction fuel as [|fuel IH]; intros contexts token; simpl.
  { always_auto. }
  eapply always_bind; [by apply _request_always|]. intros response _.
  destruct response as [[[data|]|[|odd_fields]]|]; [|always_auto..].
  destruct (add_contexts _ _); [|always_auto].
  destruct (truthy_opt _); [apply IH|always_auto].
Qed.

Lemma create_context_always self name P E :
  spares_abort P ->
  always (create_context serve self name) P (fun _ => True) E.
Proof.
  intros HP. unfold create_context.
  always_step; [always_auto|].
  eapply always_bind; [by apply _request_always|]. intros response _.
  always_auto.
Qed.

Lemma list_environment_variables_loop_always fuel self cid vars token P E :
  spares_abort P ->
  always (list_environment_variables_loop serve fuel self cid vars token) P
         (fun _ => True) E.
Proof.
  intros HP. revert vars token.
  induction fuel as [|fuel IH]; intros vars token; simpl.
  { always_auto. }
  eapply always_bind; [by apply _request_always|]. intros response _.
  destruct response as [[[data|]|[|odd_fields]]|]; [|always_auto..].
  destruct (add_variables _ _); [|always_auto].
  destruct (truthy_opt _); [apply IH|always_auto].
Qed.

Lemma create_or_update_always self cid v x P E :
  spares_abort P ->
  always (create_or_update_environment_variable serve py_str self cid v x) P
         (fun _ => True) E.
Proof.
  intros HP. unfold create_or_update_environment_variable.
  eapply always_bind; [by apply _request_always|]. intros response _.
  always_auto.
Qed.

Lemma process_variables_always client dry cname cid names vars P E :
  spares_abort P ->
  always (process_variables serve py_str client dry cname cid names vars) P
         (fun _ => True) E.
Proof.
  intros HP. induction vars as [|var_dict rest IH]; simpl.
  { always_auto. }
  eapply (always_bind _ _ _ (fun _ => True)); [|by intros].
  destruct var_dict as [| | | | |[|[v x] [|]]]; try (always_step; [by apply HP|done]).
  destruct dry; [always_auto|].
  eapply always_bind; [by apply create_or_update_always|]. intros [] _; always_auto.
Qed.

Lemma process_contexts_always client dry fuel existing cfg P E :
  spares_abort P ->
  always (process_contexts serve py_str client dry fuel existing cfg) P
         (fun _ => True) E.
Proof.
  intros HP. revert existing.
  induction cfg as [|[cname vars] rest IH]; intros existing; simpl.
  { always_auto. }
  eapply (always_bind _ _ _ (fun _ => True)); [|by intros].
  unfold process_context, ensure_context.
  eapply (always_bind _ _ _ (fun _ => True)).
  - always_step; [always_auto|].
    destruct (truthy_opt _); [always_auto|].
    always_step; [always_auto|].
    destruct dry; [always_auto|].
    eapply always_bind; [by apply create_context_always|]. intros created _.
    always_auto.
  - intros [[cid existing']|] _; [|always_auto].
    always_step; [always_auto|].
    eapply (always_bind _ _ _ (fun _ => True)).
    + destruct dry; [always_auto|].
      by apply list_environment_variables_loop_always.
    + intros names _.
      eapply always_bind; [by apply process_variables_always|].
      intros; always_auto.
Qed.

Lemma load_lines_spare_abort file :
  AbortNoContexts ∉ (load_config_yaml file).2.
Proof.
  destruct file as [| | |[| | | | |groups]]; simpl;
    try (by intros ?%list_elem_of_singleton).
  pose proof (validate_contexts_spec groups) as Hv.
  destruct (validate_contexts groups) as [e|cfg]; simpl;
    intros He%list_elem_of_singleton; [|done].
  destruct Hv as [_ (g & v & _ & [[_ ?]|[_ ?]])]; congruence.
Qed.

(** [main] never writes the abort line, and status 1 is the only one it
    exits with. *)
Lemma main_always args api_token file fuel :
  always (main serve py_str args api_token file fuel)
         (fun e => e ≠ Log AbortNoContexts) (fun _ => True) (fun code => code = 1%Z).
Proof.
  assert (HP : spares_abort (fun e => e ≠ Log AbortNoContexts)).
  { split; [done|]. intros m Hm [= ->]. done. }
  unfold main.
  eapply (always_bind _ _ _ (fun _ => True)); [always_auto|]. intros tok _.
  eapply (always_bind _ _ _ (fun _ => True)).
  { pose proof (load_lines_spare_abort file) as Hlines.
    destruct (load_config_yaml file) as [loaded lines]. intros r. simpl.
    split; [|done]. apply Forall_forall. intros e He.
    apply list_elem_of_fmap in He as (m & -> & Hm). by intros [= ->]. }
  intros loaded _.
  eapply (always_bind _ _ _ (fun _ => True));
    [destruct loaded as [[|g gs]|]; always_auto|]. intros cfg _.
  always_step; [always_auto|].
  eapply (always_bind _ _ _ (fun _ => True)); [always_auto|]. intros client _.
  eapply (always_bind _ _ _ (fun _ => True)).
  { unfold fetch_existing. always_step; [always_auto|].
    destruct (dry_run args); [always_auto|].
    eapply always_bind; [by apply list_contexts_loop_always|].
    intros [d|] Hd; [always_auto|done]. }
  intros existing _.
  eapply always_bind; [by apply process_contexts_always|].
  intros; always_auto.
Qed.

End ClientRuns.

(** ** Listing the groups *)

(** The items of a page all carry the fields the client reads. *)
Lemma add_contexts_Some its contexts contexts' :
  add_contexts its contexts = Some contexts' ->
  forallb (has_keys ["id"; "name"]) its = true.
Proof.
  revert contexts. induction its as [|item rest IH]; intros contexts H; [done|].
  simpl in H. cbn [forallb]. unfold has_keys at 1. cbn [forallb].
  destruct (get item "id") as [id|]; [|done].
  destruct (get item "name") as [name|]; [|done].
  by rewrite (IH _ H).
Qed.

Lemma listing_failed_cons keys req out t :
  listing_failed keys (Http req out :: t) ->
  page_fails keys out = true ∨ listing_failed keys t.
Proof.
  intros (req' & out' & Hin & Hfail).
  apply elem_of_cons in Hin as [[= <- <-]|Hin]; [by left|].
  right. by exists req', out'.
Qed.

Lemma listing_failed_log keys m t :
  listing_failed keys (Log m :: t) -> listing_failed keys t.
Proof.
  intros (req & out & Hin & Hfail).
  apply elem_of_cons in Hin as [[=]|Hin]. by exists req, out.
Qed.

Lemma listing_failed_nil keys : ¬ listing_failed keys [].
Proof. intros (req & out & Hin & _). by apply elem_of_nil in Hin. Qed.

Section ListContexts.

Context {Remote : Type}.
Variable serve : Remote -> Request -> outcome * Remote.
Implicit Types (r : Remote) (self : CircleCIClient).

(** One turn of the loop of [list_contexts], by the answer it gets. *)
Lemma list_contexts_loop_step fuel self contexts token r :
  list_contexts_loop serve (S fuel) self contexts token r =
  let req := list_request self (truthy_opt token) in
  match serve r req with
  | (RequestException status, r') =>
      (Ret (Some ∅), r',
       Http req (RequestException status)
       :: (failure_lines req status ++ [Log RetrieveContextsFailed])%list)
  | (Returned None, r') =>
      (Ret (Some ∅), r', [Http req (Returned None); Log ParseContextsFailed])
  | (Returned (Some data), r') =>
      match add_contexts (default [] (items data)) contexts with
      | None =>
          (Ret (Some ∅), r',
           [Http req (Returned (Some data)); Log ParseContextsFailed])
      | Some contexts' =>
          match truthy_opt (get (fields data) "next_page_token") with
          | Some tok =>
              let run := list_contexts_loop serve fuel self contexts' (Some tok) r' in
              (run.1.1, run.1.2, Http req (Returned (Some data)) :: run.2)
          | None =>
              (Ret (Some contexts'), r',
               [Http req (Returned (Some data));
                Log (FoundContexts (size contexts') (client_org_id self))])
          end
      end
  | (RequestExceptionOdd status_code, r') =>
      (Raised AttributeError, r',
       [Http req (RequestExceptionOdd status_code);
        Log (ApiRequestFailed GET (req_url req));
        Log (StatusCode status_code)])
  | (ReturnedOdd NotAnObject, r') =>
      (Raised AttributeError, r', [Http req (ReturnedOdd NotAnObject)])
  | (ReturnedOdd (UnreadableItems data_fields), r') =>
      (Raised TypeError, r', [Http req (ReturnedOdd (UnreadableItems data_fields))])
  end.
Proof.
  simpl. rewrite run_bind, _request_run. unfold list_request. simpl.
  destruct (serve r _) as [[status|[data|]|code|[|odd_fields]] r']; simpl;
    try done.
  destruct (add_contexts _ _) as [contexts'|]; [|done].
  destruct (truthy_opt _) as [tok|]; [|done].
  by destruct (list_contexts_loop _ _ _ _ _ _) as [[res r2] t2].
Qed.

(** A page the client gives up on ends the listing, whatever the pages
    before it held: with the empty dictionary, unless the answer is one
    of those that make the client raise. *)
Lemma list_contexts_loop_failed fuel self contexts token r :
  listing_failed ["id"; "name"] (list_contexts_loop serve fuel self contexts token r).2 ->
  (list_contexts_loop serve fuel self contexts token r).1.1 = Ret (Some ∅)
  ∨ ∃ e, (list_contexts_loop serve fuel self contexts token r).1.1 = Raised e.
Proof.
  revert contexts token r.
  induction fuel as [|fuel IH]; intros contexts token r.
  { intros H. by apply listing_failed_nil in H. }
  rewrite list_contexts_loop_step. simpl.
  destruct (serve r _) as [[status|[data|]|code|[|odd_fields]] r']; simpl;
    eauto.
  destruct (add_contexts _ _) as [contexts'|] eqn:Hadd; [|by left].
  apply add_contexts_Some in Hadd.
  destruct (truthy_opt _) as [tok|]; simpl.
  - intros [Hfail|Hrest]%listing_failed_cons; [|by apply IH].
    simpl in Hfail. by rewrite Hadd in Hfail.
  - intros [Hfail|Hrest]%listing_failed_cons.
    + simpl in Hfail. by rewrite Hadd in Hfail.
    + by apply listing_failed_log, listing_failed_nil in Hrest.
Qed.

End ListContexts.

Lemma document_validation_witness :
  load_config_yaml (Parsed (YMap [("g", YSeq [YMap [("A", YStr "x")]])]))
  = (Some [("g", [YMap [("A", YStr "x")]])], [ConfigLoaded])
  ∧ ∃ e, load_config_yaml (Parsed (YMap [("g", YMap [("A", YStr "x")])]))
         = (None, [e])
         ∧ rejects [("g", YMap [("A", YStr "x")])] e
         ∧ e = InvalidContextFormat "g".
Proof.
  split.
  - apply (proj1 (document_validation
                    (YMap [("g", YSeq [YMap [("A", YStr "x")]])]))).
    eexists. split; [reflexivity|].
    constructor; [|constructor].
    exists [YMap [("A", YStr "x")]]. split; [reflexivity|].
    constructor; [|constructor]. by exists "A", (YStr "x").
  - destruct (proj2 (document_validation (YMap [("g", YMap [("A", YStr "x")])])))
      as [(e & Hload & Hrej) _].
    { intros (groups & [= <-] & Hall).
      apply Forall_cons in Hall as [(its & Heq & _) _]. discriminate Heq. }
    exists e. split; [exact Hload|]. split; [exact Hrej|].
    destruct Hrej as (g & v & Hin & [[_ He]|[(its & Hv & _) _]]);
      apply list_elem_of_singleton in Hin; injection Hin as -> ->;
      [exact He|discriminate Hv].
Defined.

(** ** Dry runs *)

Lemma requests_logs (lines : list log_msg) : requests (map Log lines) = [].
Proof. unfold requests. by induction lines. Qed.

Section DryRun.

Context {Remote : Type}.
Variable serve : Remote -> Request -> outcome * Remote.
Variable py_str : yaml -> string.
Implicit Types (r : Remote) (client : CircleCIClient).

Lemma process_variables_dry client cname cid names vars r :
  process_variables serve py_str client true cname cid names vars r
  = (Ret tt, r, map Log (map (dry_variable_line cname names) vars)).
Proof.
  induction vars as [|item rest IH]; [done|].
  simpl. rewrite run_bind.
  assert (Hitem :
    match item with
    | YMap [(var_name, var_value)] =>
        log (DryRunEnsure var_name cname (classify names var_name))
    | _ => log (SkippingInvalidEntry cname)
    end r = (Ret tt, r, [Log (dry_variable_line cname names item)])).
  { by destruct item as [| | | | |[|[v x] [|]]]. }
  rewrite Hitem, IH. done.
Qed.

Lemma process_contexts_dry client fuel existing cfg r :
  process_contexts serve py_str client true fuel existing cfg r
  = (Ret existing, r, map Log (flat_map (dry_group_lines existing) cfg)).
Proof.
  induction cfg as [|[cname vars] rest IH]; [done|].
  simpl. rewrite run_bind.
  assert (Hgroup :
    process_context serve py_str client true fuel existing cname vars r
    = (Ret existing, r, map Log (dry_group_lines existing (cname, vars)))).
  { unfold process_context, ensure_context, dry_group_lines. simpl.
    rewrite !run_bind. simpl.
    destruct (truthy_opt (existing !! cname)) as [cid|]; simpl;
      repeat (rewrite run_bind; simpl);
      rewrite process_variables_dry; simpl; by rewrite app_nil_r. }
  rewrite Hgroup, IH. by rewrite map_app.
Qed.

#[local] Arguments process_contexts : simpl never.
#[local] Arguments simulated_contexts : simpl never.
#[local] Arguments flat_map : simpl never.

(** A dry run is its report: the remote is left as it was and the trace
    is made of log lines only. *)
Lemma main_dry_run args api_token file fuel r :
  dry_run args = true ->
  main serve py_str args api_token file fuel r
  = ((dry_run_report args api_token file).1, r,
     map Log (dry_run_report args api_token file).2).
Proof.
  intros Hdry. unfold main, dry_run_report. rewrite run_bind.
  destruct (truthy_opt api_token) as [token|]; [|done]. simpl.
  rewrite run_bind. destruct (load_config_yaml file) as [loaded lines]. simpl.
  rewrite run_bind. destruct loaded as [[|g gs]|]; simpl; try by rewrite app_nil_r.
  rewrite Hdry. repeat (rewrite run_bind; simpl).
  destruct (CircleCIClient_init token (org_id args)) as [e|client]; simpl.
  { by rewrite map_app. }
  unfold fetch_existing. repeat (rewrite run_bind; simpl).
  rewrite process_contexts_dry. simpl.
  rewrite !map_app. simpl. by rewrite ?map_app.
Qed.

End DryRun.

(** What the loader hands back holds single-pair items only. *)
Lemma load_config_yaml_items file cfg lines g vs :
  load_config_yaml file = (Some cfg, lines) -> (g, vs) ∈ cfg ->
  Forall single_entry vs.
Proof.
  destruct file as [| | |[| | | | |groups]]; try done. simpl.
  pose proof (validate_contexts_spec groups) as Hv.
  destruct (validate_contexts groups) as [e|cfg']; [done|].
  destruct Hv as [Hall ->]. intros [= <- <-] Hin.
  apply list_elem_of_fmap in Hin as ([g' v] & Heq & Hin).
  simpl in Heq. injection Heq as -> ->.
  rewrite Forall_forall in Hall.
  destruct (Hall _ Hin) as (its & Hv & ?). simpl in Hv. by rewrite Hv.
Qed.

Lemma truthy_opt_Some o s : truthy_opt o = Some s -> o = Some s ∧ truthy s = true.
Proof.
  destruct o as [t|]; [|done]. simpl.
  destruct (truthy t) eqn:Ht; [|done]. by intros [= <-].
Qed.

(** With nothing known to exist, the line of a variable says [Created]. *)
Lemma dry_variable_line_single cname v x :
  dry_variable_line cname ∅ (YMap [(v, x)]) = DryRunEnsure v cname Created.
Proof. simpl. unfold classify. case_decide; [set_solver|done]. Qed.

(** The report of a dry run that is set up holds the lines of each
    group of the desired state. *)
Lemma dry_run_report_lines args api_token file cfg lines g l :
  is_Some (truthy_opt api_token) -> truthy (org_id args) = true ->
  load_config_yaml file = (Some cfg, lines) ->
  g ∈ cfg -> l ∈ dry_group_lines (simulated_contexts cfg) g ->
  l ∈ (dry_run_report args api_token file).2.
Proof.
  intros [token Htok] Horg Hload Hg Hl.
  unfold dry_run_report. rewrite Htok, Hload.
  apply truthy_opt_Some in Htok as [_ Htok].
  destruct cfg as [|g0 gs]; [by apply elem_of_nil in Hg|].
  unfold CircleCIClient_init. rewrite Htok, Horg.
  cbv beta iota delta [snd]. rewrite !elem_of_app. right. right. left.
  apply list_elem_of_In, in_flat_map. exists g.
  split; by apply list_elem_of_In.
Qed.

(** C6. A dry run sends no request at all - so none to the creation or
    to the upsert endpoint - and, once the run is set up (a token, an
    organisation id, a document that loads), its log has the line of
    every group of the desired state and, under it, the line of every
    variable of that group. *)
Theorem dry_run_mutates_nothing
    (Remote : Type) (serve : Remote -> Request -> outcome * Remote)
    (py_str : yaml -> string) args api_token file fuel r :
  dry_run args = true ->
  requests (main serve py_str args api_token file fuel r).2 = []
  ∧ creations (main serve py_str args api_token file fuel r).2 = []
  ∧ upserts (main serve py_str args api_token file fuel r).2 = []
  ∧ (main serve py_str args api_token file fuel r).1.2 = r
  ∧ ∀ cfg lines,
      is_Some (truthy_opt api_token) -> truthy (org_id args) = true ->
      load_config_yaml file = (Some cfg, lines) ->
      ∀ g vs, (g, vs) ∈ cfg ->
        Log (ProcessingContext g) ∈ (main serve py_str args api_token file fuel r).2
        ∧ ∀ item, item ∈ vs ->
            ∃ var_name var_value, item = YMap [(var_name, var_value)]
              ∧ Log (DryRunEnsure var_name g Created)
                ∈ (main serve py_str args api_token file fuel r).2.
Proof.
  intros Hdry. rewrite (main_dry_run serve py_str _ _ _ _ _ Hdry).
  cbv beta iota delta [fst snd].
  unfold creations, upserts. rewrite requests_logs.
  do 4 (split; [done|]).
  intros cfg lines Htok Horg Hload g vs Hg.
  assert (Hlines : ∀ l, l ∈ dry_group_lines (simulated_contexts cfg) (g, vs) ->
                        l ∈ (dry_run_report args api_token file).2).
  { intros l. by apply (dry_run_report_lines _ _ _ cfg lines). }
  split.
  - apply list_elem_of_fmap_2, Hlines. apply elem_of_app. left. by left.
  - intros item Hitem.
    pose proof (load_config_yaml_items _ _ _ _ _ Hload Hg) as Hall.
    rewrite Forall_forall in Hall.
    destruct (Hall _ Hitem) as (v & x & ->). exists v, x. split; [done|].
    apply list_elem_of_fmap_2, Hlines. apply elem_of_app. right.
    rewrite <- (dry_variable_line_single g v x).
    apply (list_elem_of_fmap_2 (dry_variable_line g ∅) _ _ Hitem).
Qed.

Lemma dry_run_mutates_nothing_witness :
  let args := mkArgs "contexts.yml" "org" true in
  let file := Parsed (YMap [("g", YSeq [YMap [("A", YStr "x")]])]) in
  let run := main serve_script (fun _ => "") args (Some "token") file 1 [] in
  requests run.2 = []
  ∧ Log (ProcessingContext "g") ∈ run.2
  ∧ Log (DryRunEnsure "A" "g" Created) ∈ run.2.
Proof.
  intros args file run.
  destruct (dry_run_mutates_nothing Script serve_script (fun _ => "") args
              (Some "token") file 1 [] eq_refl) as (Hnone & _ & _ & _ & Hlog).
  split; [exact Hnone|].
  destruct (Hlog [("g", [YMap [("A", YStr "x")]])] [ConfigLoaded]
              ltac:(by eexists) eq_refl eq_refl
              "g" [YMap [("A", YStr "x")]] ltac:(by left)) as [Hg Hvars].
  split; [exact Hg|].
  destruct (Hvars (YMap [("A", YStr "x")]) ltac:(by left))
    as (v & x & [= <- <-] & Hv).
  exact Hv.
Defined.

(** Go through a membership in a list that is written out. *)
Ltac in_lines H :=
  repeat (apply elem_of_cons in H as [H|H]; [try (subst; done)|]);
  try (apply elem_of_nil in H; destruct H).

(** The loader writes its own lines only. *)
Lemma load_lines_kinds file m :
  m ∈ (load_config_yaml file).2 ->
  m ∈ [ConfigNotFound; InvalidRoot; ConfigLoaded; ConfigParseError; ConfigReadError]
  ∨ ∃ g, m = InvalidContextFormat g ∨ m = InvalidVariableFormat g.
Proof.
  destruct file as [| | |[| | | | |groups]]; simpl;
    try (intros ->%list_elem_of_singleton; left; repeat constructor).
  pose proof (validate_contexts_spec groups) as Hv.
  destruct (validate_contexts groups) as [e|cfg]; simpl;
    intros ->%list_elem_of_singleton; [|left; repeat constructor].
  right. destruct Hv as [_ (g & v & _ & [[_ ?]|[_ ?]])]; exists g; auto.
Qed.

(** The variable lines of a dry-run report all say [Created], and the
    report has no line of a performed upsert. *)
Lemma dry_run_report_labels args api_token file m :
  m ∈ (dry_run_report args api_token file).2 ->
  (∀ v g a, m = DryRunEnsure v g a -> a = Created)
  ∧ (∀ a v g, m ≠ VariableDone a v g).
Proof.
  assert (Hloader : m ∈ (load_config_yaml file).2 ->
    (∀ v g a, m = DryRunEnsure v g a -> a = Created)
    ∧ (∀ a v g, m ≠ VariableDone a v g)).
  { intros [Hm|(g & [-> | ->])]%load_lines_kinds; [|done..].
    split; intros; subst; in_lines Hm. }
  unfold dry_run_report.
  destruct (truthy_opt api_token) as [token|]; [|by intros ?%elem_of_nil].
  destruct (load_config_yaml file) as [[[|g0 gs]|] lines] eqn:Hload;
    simpl in Hloader; try (by apply Hloader).
  destruct (CircleCIClient_init token (org_id args)) as [e|client];
    cbv beta iota delta [snd]; rewrite !elem_of_app.
  - intros [Hm|Hm]; [by apply Hloader|]. split; intros; subst; in_lines Hm.
  - intros [Hm|[Hm|[Hm|Hm]]];
      [by apply Hloader|split; intros; subst; in_lines Hm|
      |split; intros; subst; in_lines Hm].
    apply list_elem_of_In, in_flat_map in Hm as ([g vs] & _ & Hm).
    apply list_elem_of_In in Hm. unfold dry_group_lines in Hm.
    apply elem_of_app in Hm as [Hm|Hm].
    + destruct (truthy_opt _); split; intros; subst; in_lines Hm.
    + apply list_elem_of_fmap in Hm as (item & -> & _).
      destruct item as [| | | | |[|[v x] [|]]]; try done.
      rewrite dry_variable_line_single. split; [|done]. by intros ? ? ? [= _ _ <-].
Qed.

(** *** The variable lines of a dry run *)

Lemma ensured_app t1 t2 : ensured (t1 ++ t2) = ensured t1 ++ ensured t2.
Proof. apply omap_app. Qed.

Lemma ensured_none (lines : list log_msg) :
  (∀ m, m ∈ lines -> ∀ v g a, m ≠ DryRunEnsure v g a) ->
  ensured (map Log lines) = [].
Proof.
  induction lines as [|m lines IH]; intros Hno; [done|].
  unfold ensured in *. simpl.
  destruct m; try (apply IH; intros ? ?; apply Hno; by right).
  exfalso. eapply Hno; [by left|done].
Qed.

Lemma ensured_variable_lines g vs :
  Forall single_entry vs ->
  ensured (map Log (map (dry_variable_line g ∅) vs))
  = map (fun var => (var.1, g, Created)) (var_entries vs).
Proof.
  induction 1 as [|item vs (v & x & ->) _ IH]; [done|].
  change (ensured (map Log (map (dry_variable_line g ∅) (YMap [(v, x)] :: vs))))
    with ((v, g, classify ∅ v)
          :: ensured (map Log (map (dry_variable_line g ∅) vs))).
  by rewrite IH.
Qed.

Lemma ensured_group_lines existing g :
  Forall single_entry g.2 ->
  ensured (map Log (dry_group_lines existing g))
  = map (fun var => (var.1, g.1, Created)) (var_entries g.2).
Proof.
  intros Hall. unfold dry_group_lines.
  rewrite map_app, ensured_app, (ensured_variable_lines _ _ Hall).
  rewrite (ensured_none (_ :: _)); [done|].
  intros m Hm v g' a ->. destruct (truthy_opt _); in_lines Hm.
Qed.

Lemma ensured_groups existing cfg :
  (∀ g, g ∈ cfg -> Forall single_entry g.2) ->
  ensured (map Log (flat_map (dry_group_lines existing) cfg))
  = flat_map (fun g => map (fun var => (var.1, g.1, Created)) (var_entries g.2))
      cfg.
Proof.
  induction cfg as [|g rest IH]; intros Hall; [done|].
  cbn [flat_map].
  rewrite map_app, ensured_app, IH by (intros; apply Hall; by right).
  by rewrite ensured_group_lines by (apply Hall; by left).
Qed.

Lemma ensured_dry_run_report args api_token file cfg lines :
  is_Some (truthy_opt api_token) -> truthy (org_id args) = true ->
  load_config_yaml file = (Some cfg, lines) ->
  ensured (map Log (dry_run_report args api_token file).2)
  = flat_map (fun g => map (fun var => (var.1, g.1, Created)) (var_entries g.2))
      cfg.
Proof.
  intros [token Htok] Horg Hload.
  assert (Hlines : ensured (map Log lines) = []).
  { apply ensured_none. intros m Hm v g a ->.
    pose proof (load_lines_kinds file (DryRunEnsure v g a)) as Hk.
    rewrite Hload in Hk.
    destruct (Hk Hm) as [Hin|(g' & [?|?])]; [in_lines Hin|done..]. }
  pose proof (load_config_yaml_items file cfg lines) as Hitems.
  unfold dry_run_report. rewrite Htok, Hload.
  apply truthy_opt_Some in Htok as [_ Htok].
  destruct cfg as [|g0 gs]; [done|].
  unfold CircleCIClient_init. rewrite Htok, Horg.
  cbv beta iota delta [snd].
  rewrite !map_app, !ensured_app, Hlines.
  rewrite (ensured_none [_; _; _]) by (intros m Hm v g a ->; in_lines Hm).
  rewrite (ensured_none [_]) by (intros m Hm v g a ->; in_lines Hm).
  rewrite app_nil_r, ensured_groups; [done|].
  intros [g vs] Hg. by apply (Hitems _ _ Hload Hg).
Qed.

(** C8. In a dry run the whole report - the outcome and every line, the
    lines of the variables among them - is the same whatever the remote
    is and whatever it holds; every variable line carries the one label
    [Created], and no line of a performed create or update is written.
    Once the run is set up the variable lines are those of the
    document, no more and no fewer: one for every item of every group,
    in document order, each under that label. *)
Theorem dry_run_label_is_fixed
    (Remote1 Remote2 : Type)
    (serve1 : Remote1 -> Request -> outcome * Remote1)
    (serve2 : Remote2 -> Request -> outcome * Remote2)
    (py_str : yaml -> string) args api_token file fuel r1 r2 :
  dry_run args = true ->
  (main serve1 py_str args api_token file fuel r1).2
  = (main serve2 py_str args api_token file fuel r2).2
  ∧ (main serve1 py_str args api_token file fuel r1).1.1
    = (main serve2 py_str args api_token file fuel r2).1.1
  ∧ (∀ v g a,
       Log (DryRunEnsure v g a) ∈ (main serve1 py_str args api_token file fuel r1).2 ->
       a = Created)
  ∧ (∀ a v g,
       Log (VariableDone a v g) ∉ (main serve1 py_str args api_token file fuel r1).2)
  ∧ (∀ cfg lines,
       is_Some (truthy_opt api_token) -> truthy (org_id args) = true ->
       load_config_yaml file = (Some cfg, lines) ->
       ensured (main serve1 py_str args api_token file fuel r1).2
       = flat_map (fun g => map (fun var => (var.1, g.1, Created))
                              (var_entries g.2)) cfg
       ∧ ∀ g vs item, (g, vs) ∈ cfg -> item ∈ vs ->
           ∃ var_name var_value,
             item = YMap [(var_name, var_value)]
             ∧ Log (DryRunEnsure var_name g Created)
               ∈ (main serve1 py_str args api_token file fuel r1).2).
Proof.
  intros Hdry.
  rewrite (main_dry_run serve1 py_str _ _ _ _ _ Hdry),
          (main_dry_run serve2 py_str _ _ _ _ _ Hdry).
  cbv beta iota delta [fst snd]. do 2 (split; [done|]). split; [|split].
  - intros v g a (m & [= <-] & Hm)%list_elem_of_fmap.
    by eapply (dry_run_report_labels _ _ _ _ Hm).
  - intros a v g (m & [= <-] & Hm)%list_elem_of_fmap.
    by eapply (dry_run_report_labels _ _ _ _ Hm).
  - intros cfg lines Htok Horg Hload.
    split; [by apply (ensured_dry_run_report _ _ _ cfg lines)|].
    intros g vs item Hg Hitem.
    pose proof (load_config_yaml_items _ _ _ _ _ Hload Hg) as Hall.
    rewrite Forall_forall in Hall.
    destruct (Hall _ Hitem) as (v & x & ->). exists v, x. split; [done|].
    apply list_elem_of_fmap_2.
    apply (dry_run_report_lines _ _ _ cfg lines (g, vs)); try done.
    apply elem_of_app. right.
    rewrite <- (dry_variable_line_single g v x).
    apply (list_elem_of_fmap_2 (dry_variable_line g ∅) _ _ Hitem).
Qed.

Lemma dry_run_label_is_fixed_witness :
  let args := mkArgs "contexts.yml" "org" true in
  let file := Parsed (YMap [("g", YSeq [YMap [("A", YStr "x")]])]) in
  let run := main serve_directory (fun _ => "") args (Some "token") file 1
               [("g", ["A"])] in
  (main serve_script (fun _ => "") args (Some "token") file 1 []).2 = run.2
  ∧ ensured run.2 = [("A", "g", Created)].
Proof.
  intros args file run.
  destruct (dry_run_label_is_fixed Directory Script serve_directory
              serve_script (fun _ => "") args (Some "token") file 1
              [("g", ["A"])] [] eq_refl) as (Hsame & _ & _ & _ & Hlines).
  split; [by rewrite <- Hsame|].
  destruct (Hlines [("g", [YMap [("A", YStr "x")]])] [ConfigLoaded]
              ltac:(by eexists) eq_refl eq_refl) as [Hens _].
  exact Hens.
Defined.

(** ** The listing that fails *)

(** C1. A run the specification says must abort: one group with one
    variable, and a remote whose listing of the groups does not get
    through.  The run does not stop there: [list_contexts] hands back the
    empty dictionary, which [main] does not take for a failure (it tests
    for [None]); the group is then created and its variable upserted,
    and the process exits with status 0. *)
Theorem failed_listing_does_not_abort (py_str : yaml -> string) :
  let args := mkArgs "contexts.yml" "org" false in
  let file := Parsed (YMap [("g", YSeq [YMap [("A", YStr "x")]])]) in
  let client := mkClient CIRCLECI_API_BASE_URL "org" "token" in
  let answers :=
    [RequestException None;
     Returned (Some (mkBody [("id", "c1")] None));
     Returned (Some (mkBody [] (Some [])));
     Returned (Some (mkBody [] None))] in
  let run := main serve_script py_str args (Some "token") file 2 answers in
  listing_failed ["id"; "name"] (list_contexts serve_script 2 client answers).2
  ∧ (exit_status run.1.1 = Some 0%Z)
  ∧ (Log AbortNoContexts ∉ run.2)
  ∧ (creations run.2
     = [mkRequest POST CIRCLECI_API_BASE_URL ContextCreate
          (Some (CreatePayload "g" "org"))])
  ∧ (upserts run.2
     = [mkRequest PUT CIRCLECI_API_BASE_URL (EnvVar "c1" "A")
          (Some (ValuePayload "x"))]).
Proof.
  intros args file client answers run. split.
  { exists (list_request client None), (RequestException None).
    split; [vm_compute; constructor|reflexivity]. }
  split; [reflexivity|]. split; [|split; reflexivity].
  intros Hin.
  destruct (main_always serve_script py_str args (Some "token") file 2 answers)
    as [Hall _].
  rewrite Forall_forall in Hall. by apply (Hall _ Hin).
Qed.

(** ** Pagination *)

Lemma truthy_opt_idemp o : truthy_opt (truthy_opt o) = truthy_opt o.
Proof. destruct o as [s|]; [|done]. simpl. by destruct (truthy s) eqn:Hs; simpl; rewrite ?Hs. Qed.

Lemma add_contexts_items its contexts :
  add_contexts (map context_item its) contexts
  = Some (foldl (fun d ni => <[ni.1 := ni.2]> d) contexts its).
Proof.
  revert contexts. induction its as [|[name id] rest IH]; intros contexts; [done|].
  simpl. apply IH.
Qed.

Lemma page_body_token p :
  get (fields (page_body p)) "next_page_token" = page_token p.
Proof. unfold page_body. by destruct (page_token p). Qed.

Lemma page_body_items p :
  items (page_body p) = Some (map context_item (page_items p)).
Proof. done. Qed.

Lemma requests_cons_http req out t : requests (Http req out :: t) = req :: requests t.
Proof. done. Qed.

Lemma paginated_cons p more :
  paginated (p :: more) ->
  (more = [] ∧ truthy_opt (page_token p) = None)
  ∨ (∃ tok, truthy_opt (page_token p) = Some tok ∧ paginated more).
Proof.
  destruct more as [|p' more]; [by left|].
  intros [[tok Htok] Hmore]. right. by exists tok.
Qed.

(** The loop against the pages of a listing: one turn per page. *)
Lemma list_contexts_loop_pages fuel self contexts token pages (rest : Script) :
  paginated pages -> (length pages ≤ fuel)%nat ->
  let run := list_contexts_loop serve_script fuel self contexts token
               (map page_response pages ++ rest) in
  run.1.1 = Ret (Some (foldl (fun d ni => <[ni.1 := ni.2]> d) contexts
                         (concat (map page_items pages))))
  ∧ run.1.2 = rest
  ∧ requests run.2 = page_requests self (truthy_opt token) pages.
Proof.
  revert fuel contexts token.
  induction pages as [|p more IH]; intros fuel contexts token Hpages Hfuel; [done|].
  destruct fuel as [|fuel]; [simpl in Hfuel; lia|].
  cbv zeta. rewrite list_contexts_loop_step.
  cbn [map app serve_script page_response]. cbv zeta.
  rewrite page_body_items. simpl (default _ _).
  rewrite add_contexts_items, page_body_token.
  cbn [map concat page_requests]. rewrite foldl_app.
  destruct (paginated_cons _ _ Hpages) as [[-> Hlast]|(tok & Htok & Hmore)].
  - rewrite Hlast. done.
  - rewrite Htok.
    destruct (IH fuel (foldl (fun d ni => <[ni.1 := ni.2]> d) contexts (page_items p))
                (Some tok) Hmore) as (Hres & Hrem & Hreq).
    { simpl in Hfuel. lia. }
    cbn [fst snd]. rewrite requests_cons_http.
    split; [exact Hres|]. split; [exact Hrem|].
    rewrite Hreq. do 2 f_equal.
    apply truthy_opt_Some in Htok as [_ Htok]. simpl. by rewrite Htok.
Qed.

(** An entry of the dictionary built from a list of items is one of
    the items; with distinct names every item is an entry. *)
Lemma foldl_insert_lookup its (d : gmap string string) n i :
  foldl (fun d ni => <[ni.1 := ni.2]> d) d its !! n = Some i ->
  (n, i) ∈ its ∨ d !! n = Some i.
Proof.
  revert d. induction its as [|[n' i'] rest IH]; intros d; simpl; [by right|].
  intros [Hin|Hd]%IH; [left; by right|].
  destruct (decide (n' = n)) as [->|Hne].
  - rewrite lookup_insert_eq in Hd. injection Hd as ->. left. by left.
  - rewrite lookup_insert_ne in Hd by done. by right.
Qed.

Lemma foldl_insert_fresh its (d : gmap string string) n :
  n ∉ its.*1 -> foldl (fun d ni => <[ni.1 := ni.2]> d) d its !! n = d !! n.
Proof.
  revert d. induction its as [|[n' i'] rest IH]; intros d Hn; simpl; [done|].
  simpl in Hn. apply not_elem_of_cons in Hn as [Hne Hn].
  rewrite IH by done. by rewrite lookup_insert_ne.
Qed.

Lemma dict_of_items_lookup its n i :
  NoDup (its.*1) -> (dict_of_items its !! n = Some i ↔ (n, i) ∈ its).
Proof.
  intros Hnd. split.
  - intros [?|Hd]%foldl_insert_lookup; [done|]. by rewrite lookup_empty in Hd.
  - unfold dict_of_items. generalize (∅ : gmap string string).
    induction its as [|[n' i'] rest IH]; intros d Hin; [by apply elem_of_nil in Hin|].
    simpl in Hnd. apply NoDup_cons in Hnd as [Hfresh Hnd]. simpl.
    apply elem_of_cons in Hin as [[= -> ->]|Hin]; [|by apply IH].
    rewrite foldl_insert_fresh by done. apply lookup_insert_eq.
Qed.

(** C2. Against a remote that answers with the pages of a listing -
    every page but the last with a token - [list_contexts] sends one
    request per page and then stops: the first request carries no token,
    each later one the token of the page before it; it returns the
    dictionary made of the items of all the pages in order (every entry
    is an item of some page, and with distinct names every item is an
    entry) and leaves the answers that follow the pages unread. *)
Theorem list_contexts_traverses_all_pages
    (self : CircleCIClient) (pages : list page) (rest : Script) (fuel : nat) :
  paginated pages -> (length pages ≤ fuel)%nat ->
  let run := list_contexts serve_script fuel self
               (map page_response pages ++ rest) in
  let all_items := concat (map page_items pages) in
  run.1.1 = Ret (Some (dict_of_items all_items))
  ∧ run.1.2 = rest
  ∧ requests run.2 = page_requests self None pages
  ∧ length (requests run.2) = length pages
  ∧ requests run.2 !! 0 = Some (list_request self None)
  ∧ (∀ i p, pages !! i = Some p -> (S i < length pages)%nat ->
       is_Some (page_token p)
       ∧ requests run.2 !! S i = Some (list_request self (page_token p)))
  ∧ (∀ n i, dict_of_items all_items !! n = Some i -> (n, i) ∈ all_items)
  ∧ (NoDup (all_items.*1) ->
     ∀ n i, (n, i) ∈ all_items -> dict_of_items all_items !! n = Some i).
Proof.
  intros Hpages Hfuel. cbv zeta. unfold list_contexts.
  destruct (list_contexts_loop_pages fuel self ∅ None pages rest Hpages Hfuel)
    as (Hres & Hrem & Hreq).
  simpl in Hreq.
  split; [exact Hres|]. split; [exact Hrem|]. split; [exact Hreq|].
  rewrite Hreq. clear Hres Hrem Hreq.
  split.
  { generalize (@None string). clear Hpages Hfuel.
    induction pages as [|p more IH]; intros token; simpl; [done|]. by rewrite IH. }
  split; [by destruct pages|].
  split.
  { revert Hpages. generalize (@None string). clear.
    induction pages as [|q more IH]; intros token Hpages i p Hi Hlen; [done|].
    destruct (paginated_cons _ _ Hpages) as [[-> _]|(tok & Htok & Hmore)];
      [simpl in Hlen; lia|].
    destruct i as [|i]; simpl in Hi.
    - injection Hi as ->. apply truthy_opt_Some in Htok as [Hp Htok].
      rewrite Hp. split; [by eexists|].
      destruct more as [|q' more]; [simpl in Hlen; lia|].
      simpl. rewrite Hp. simpl. by rewrite Htok.
    - apply (IH (truthy_opt (page_token q)) Hmore i p Hi). simpl in Hlen. lia. }
  split.
  - intros n i [?|Hd]%foldl_insert_lookup; [done|]. by rewrite lookup_empty in Hd.
  - intros Hnd n i. by apply dict_of_items_lookup.
Qed.

Lemma list_contexts_traverses_all_pages_witness :
  let self := mkClient CIRCLECI_API_BASE_URL "org" "token" in
  let pages :=
    [mkPage [("a", "1"); ("b", "2")] (Some "t1");
     mkPage [("c", "3"); ("d", "4")] (Some "t2");
     mkPage [("e", "5"); ("f", "6")] None] in
  let all_items :=
    [("a", "1"); ("b", "2"); ("c", "3"); ("d", "4"); ("e", "5"); ("f", "6")] in
  let run := list_contexts serve_script 3 self (map page_response pages ++ []) in
  run.1.1 = Ret (Some (dict_of_items all_items))
  ∧ requests run.2
    = [list_request self None; list_request self (Some "t1");
       list_request self (Some "t2")]
  ∧ size (dict_of_items all_items) = 6
  ∧ ∀ n i, (n, i) ∈ all_items -> dict_of_items all_items !! n = Some i.
Proof.
  intros self pages all_items run.
  destruct (list_contexts_traverses_all_pages self pages [] 3) as
    (Hres & _ & Hreq & _ & _ & _ & _ & Hall).
  { simpl. split; [by eexists|]. split; [by eexists|]. reflexivity. }
  { simpl. lia. }
  split; [exact Hres|]. split; [exact Hreq|]. split; [reflexivity|].
  apply Hall. simpl. repeat (constructor; [by vm_compute; intros H; in_lines H|]).
  constructor.
Defined.

(** ** Real runs *)

Lemma requests_app t1 t2 : requests (t1 ++ t2) = requests t1 ++ requests t2.
Proof. unfold requests. apply omap_app. Qed.

Lemma requests_cons_log m t : requests (Log m :: t) = requests t.
Proof. done. Qed.

Lemma requests_failure_lines req status : requests (failure_lines req status) = [].
Proof. by destruct status. Qed.

Section RealRuns.

Context {Remote : Type}.
Variable serve : Remote -> Request -> outcome * Remote.
Variable py_str : yaml -> string.
Implicit Types (r : Remote) (self client : CircleCIClient).

(** *** Upserts *)









End RealRuns.

Section GroupRuns.

Context {Remote : Type}.
Variable serve : Remote -> Request -> outcome * Remote.
Variable py_str : yaml -> string.
Implicit Types (r : Remote) (self client : CircleCIClient).

(** *** Creating a group *)

Lemma create_context_run self name r :
  create_context serve self name r =
  let req := create_request self name in
  match serve r req with
  | (RequestException status, r') =>
      (Ret None, r',
       Log (CreatingContext name) :: Http req (RequestException status)
       :: failure_lines req status)
  | (Returned None, r') =>
      (Ret None, r',
       [Log (CreatingContext name); Http req (Returned None);
        Log CreateParseFailed])
  | (Returned (Some data), r') =>
      match truthy_opt (get (fields data) "id") with
      | Some cid =>
          (Ret (Some cid), r',
           [Log (CreatingContext name); Http req (Returned (Some data));
            Log (CreatedContext name cid)])
      | None =>
          (Ret None, r',
           [Log (CreatingContext name); Http req (Returned (Some data));
            Log CreateNoId])
      end
  | (RequestExceptionOdd status_code, r') =>
      (Raised AttributeError, r',
       [Log (CreatingContext name); Http req (RequestExceptionOdd status_code);
        Log (ApiRequestFailed POST (req_url req)); Log (StatusCode status_code)])
  | (ReturnedOdd NotAnObject, r') =>
      (Raised AttributeError, r',
       [Log (CreatingContext name); Http req (ReturnedOdd NotAnObject)])
  | (ReturnedOdd (UnreadableItems data_fields), r') =>
      match truthy_opt (get data_fields "id") with
      | Some cid =>
          (Ret (Some cid), r',
           [Log (CreatingContext name);
            Http req (ReturnedOdd (UnreadableItems data_fields));
            Log (CreatedContext name cid)])
      | None =>
          (Ret None, r',
           [Log (CreatingContext name);
            Http req (ReturnedOdd (UnreadableItems data_fields));
            Log CreateNoId])
      end
  end.
Proof.
  unfold create_context, create_request.
  rewrite run_bind. simpl. rewrite run_bind, _request_run. simpl.
  destruct (serve r _) as [[[code|]|[data|]|code|[|odd_fields]] r']; try done;
    simpl; by destruct (truthy_opt _).
Qed.


(** *** One group *)

#[local] Arguments list_environment_variables : simpl never.
#[local] Arguments create_context : simpl never.



(** The group is not in the snapshot and cannot be created: nothing
    but the creation request is sent for it, the snapshot stays. *)
Lemma process_context_skipped client fuel existing cname vars r r1 t1 :
  truthy_opt (existing !! cname) = None ->
  create_context serve client cname r = (Ret None, r1, t1) ->
  process_context serve py_str client false fuel existing cname vars r =
  (Ret existing, r1,
   Log (ProcessingContext cname) :: Log (ContextNotFound cname)
   :: t1 ++ [Log (SkippingContext cname)]).
Proof.
  intros Hmissing Hcreate. unfold process_context, ensure_context.
  repeat (rewrite run_bind; simpl). rewrite Hmissing. simpl.
  repeat (rewrite run_bind; simpl). rewrite Hcreate. simpl.
  by rewrite app_nil_r.
Qed.


(** *** The loop over the groups *)

Lemma process_contexts_cons client dry fuel existing cname vars rest r :
  process_contexts serve py_str client dry fuel existing ((cname, vars) :: rest) r =
  match process_context serve py_str client dry fuel existing cname vars r with
  | (Ret existing', r1, t1) =>
      let run := process_contexts serve py_str client dry fuel existing' rest r1 in
      (run.1.1, run.1.2, t1 ++ run.2)
  | (SysExit code, r1, t1) => (SysExit code, r1, t1)
  | (OutOfFuel, r1, t1) => (OutOfFuel, r1, t1)
  | (Raised e, r1, t1) => (Raised e, r1, t1)
  end.
Proof.
  cbn [process_contexts]. rewrite run_bind.
  destruct (process_context _ _ _ _ _ _ _ _ _) as [[[existing'| | |e] r1] t1];
    try done.
  by destruct (process_contexts _ _ _ _ _ _ _ _) as [[res r2] t2].
Qed.

(** The groups of [pre] first, then the others from where that leaves
    the snapshot and the remote. *)
Lemma process_contexts_app client dry fuel existing pre post r existing1 r1 t1 :
  process_contexts serve py_str client dry fuel existing pre r
  = (Ret existing1, r1, t1) ->
  process_contexts serve py_str client dry fuel existing (pre ++ post) r =
  let run := process_contexts serve py_str client dry fuel existing1 post r1 in
  (run.1.1, run.1.2, t1 ++ run.2).
Proof.
  revert existing r t1.
  induction pre as [|[cname vars] pre IH]; intros existing r t1.
  { intros [= -> -> <-]. simpl.
    by destruct (process_contexts _ _ _ _ _ _ _ _) as [[res r2] t2]. }
  simpl app. rewrite !process_contexts_cons.
  destruct (process_context _ _ _ _ _ _ _ _ _) as [[[existing'| | |e] r0] t0];
    try done.
  cbv zeta.
  destruct (process_contexts serve py_str client dry fuel existing' pre r0)
    as [[res r2] t2] eqn:Hpre.
  simpl. intros [= -> -> <-].
  rewrite (IH _ _ _ Hpre). cbv zeta. simpl. by rewrite app_assoc.
Qed.

End GroupRuns.

(** ** Listing the variables of a group *)

Lemma add_variables_Some its variables variables' :
  add_variables its variables = Some variables' ->
  forallb (has_keys ["variable"]) its = true.
Proof.
  revert variables. induction its as [|item rest IH]; intros variables H; [done|].
  simpl in H. cbn [forallb]. unfold has_keys at 1. cbn [forallb].
  destruct (get item "variable") as [v|]; [|done].
  by rewrite (IH _ H).
Qed.

Section ListVariables.

Context {Remote : Type}.
Variable serve : Remote -> Request -> outcome * Remote.
Implicit Types (r : Remote) (self : CircleCIClient).

(** One turn of the loop of [list_environment_variables]. *)
Lemma list_environment_variables_loop_step fuel self cid variables token r :
  list_environment_variables_loop serve (S fuel) self cid variables token r =
  let req := vars_request self cid (truthy_opt token) in
  match serve r req with
  | (RequestException status, r') =>
      (Ret ∅, r',
       Http req (RequestException status)
       :: failure_lines req status ++ [Log (RetrieveEnvVarsFailed cid)])
  | (Returned None, r') =>
      (Ret ∅, r', [Http req (Returned None); Log (ParseEnvVarsFailed cid)])
  | (Returned (Some data), r') =>
      match add_variables (default [] (items data)) variables with
      | None =>
          (Ret ∅, r',
           [Http req (Returned (Some data)); Log (ParseEnvVarsFailed cid)])
      | Some variables' =>
          match truthy_opt (get (fields data) "next_page_token") with
          | Some tok =>
              let run := list_environment_variables_loop serve fuel self cid
                           variables' (Some tok) r' in
              (run.1.1, run.1.2, Http req (Returned (Some data)) :: run.2)
          | None => (Ret variables', r', [Http req (Returned (Some data))])
          end
      end
  | (RequestExceptionOdd status_code, r') =>
      (Raised AttributeError, r',
       [Http req (RequestExceptionOdd status_code);
        Log (ApiRequestFailed GET (req_url req));
        Log (StatusCode status_code)])
  | (ReturnedOdd NotAnObject, r') =>
      (Raised AttributeError, r', [Http req (ReturnedOdd NotAnObject)])
  | (ReturnedOdd (UnreadableItems data_fields), r') =>
      (Raised TypeError, r', [Http req (ReturnedOdd (UnreadableItems data_fields))])
  end.
Proof.
  simpl. rewrite run_bind, _request_run. unfold vars_request. simpl.
  destruct (serve r _) as [[[code|]|[data|]|code|[|odd_fields]] r']; simpl;
    try done.
  destruct (add_variables _ _) as [variables'|]; [|done].
  destruct (truthy_opt _) as [tok|]; [|done].
  by destruct (list_environment_variables_loop _ _ _ _ _ _ _) as [[res r2] t2].
Qed.

(** A page the client gives up on ends the listing: with the empty set,
    unless the answer is one of those that make the client raise. *)
Lemma list_environment_variables_loop_failed fuel self cid variables token r :
  listing_failed ["variable"]
    (list_environment_variables_loop serve fuel self cid variables token r).2 ->
  (list_environment_variables_loop serve fuel self cid variables token r).1.1
  = Ret ∅
  ∨ ∃ e, (list_environment_variables_loop serve fuel self cid variables token
            r).1.1 = Raised e.
Proof.
  revert variables token r.
  induction fuel as [|fuel IH]; intros variables token r.
  { intros H. by apply listing_failed_nil in H. }
  rewrite list_environment_variables_loop_step. cbv zeta.
  destruct (serve r _) as [[status|[data|]|code|[|odd_fields]] r']; simpl;
    eauto.
  destruct (add_variables _ _) as [variables'|] eqn:Hadd; [|by left].
  apply add_variables_Some in Hadd.
  destruct (truthy_opt _) as [tok|]; simpl.
  - intros [Hfail|Hrest]%listing_failed_cons; [|by apply IH].
    simpl in Hfail. by rewrite Hadd in Hfail.
  - intros [Hfail|Hrest]%listing_failed_cons.
    + simpl in Hfail. by rewrite Hadd in Hfail.
    + by apply listing_failed_nil in Hrest.
Qed.

End ListVariables.

(** ** Classification *)


Lemma classify_empty v : classify ∅ v = Created.
Proof. unfold classify. case_decide; [set_solver|done]. Qed.


(** The loop over the groups never exits. *)
Lemma process_contexts_no_exit {Remote : Type}
    (serve : Remote -> Request -> outcome * Remote) py_str client dry fuel
    existing cfg r code :
  (process_contexts serve py_str client dry fuel existing cfg r).1.1 ≠ SysExit code.
Proof.
  destruct (process_contexts_always serve py_str client dry fuel existing cfg
              (fun _ => True) (fun _ => False)) with (r := r) as [_ Hres];
    [by split|].
  intros Heq. by rewrite Heq in Hres.
Qed.

(** ** Answers the handlers do not get through

    [_request] catches [RequestException], and inside the handler only
    [ValueError]; its callers catch [ValueError] and [KeyError].  A
    body that is JSON and no object - in a refusal or in a 2xx answer -
    and an [items] that cannot be read raise past all of them, and
    nothing in [main] catches what they raise.  The theorems below run
    [main] on the same document and the same answers but one: first
    with a failure a handler catches, then with one it lets through. *)

Ltac in_trace :=
  vm_compute;
  repeat first [apply list_elem_of_here | apply list_elem_of_further].

(** C10. [list_contexts] does not return a dictionary on every path.
    It hands back the empty dictionary on the failures its handlers
    catch: no answer, a refusal whose body is a JSON object or no JSON,
    a 2xx body that is no JSON, an item without [name].  On a refusal
    whose body is JSON and no object, and on a 2xx body that is JSON
    and no object or whose [items] cannot be read, an [AttributeError]
    or a [TypeError] leaves it instead - on the first page or on a
    later one - and ends the run with status 1 before any group is
    taken up.  What does hold on every path: it never returns [None]
    and never exits, so the line of the abort of lines 373-375 is in no
    trace of [main]. *)
Theorem list_contexts_lets_exceptions_through (py_str : yaml -> string) :
  let self := mkClient CIRCLECI_API_BASE_URL "org" "token" in
  let result := fun answers => (list_contexts serve_script 2 self answers).1.1 in
  let args := mkArgs "contexts.yml" "org" false in
  let file := Parsed (YMap [("g", YSeq [YMap [("A", YStr "x")]])]) in
  let run := main serve_script py_str args (Some "token") file 2
               [RequestExceptionOdd 500] in
  (result [RequestException None] = Ret (Some ∅)
   ∧ result [RequestException (Some 500%Z)] = Ret (Some ∅)
   ∧ result [Returned None] = Ret (Some ∅)
   ∧ result [Returned (Some (mkBody [] (Some [[("id", "c1")]])))] = Ret (Some ∅))
  ∧ (result [RequestExceptionOdd 500] = Raised AttributeError
     ∧ result [ReturnedOdd NotAnObject] = Raised AttributeError
     ∧ result [ReturnedOdd (UnreadableItems [])] = Raised TypeError
     ∧ result [Returned (Some (mkBody [("next_page_token", "t")]
                                 (Some [[("id", "c1"); ("name", "g")]])));
               RequestExceptionOdd 502] = Raised AttributeError)
  ∧ (run.1.1 = Raised AttributeError
     ∧ exit_status run.1.1 = Some 1%Z
     ∧ requests run.2 = [list_request self None]
     ∧ Log ScriptFinished ∉ run.2)
  ∧ (∀ (Remote : Type) (serve : Remote -> Request -> outcome * Remote)
       fuel client r,
       (list_contexts serve fuel client r).1.1 ≠ Ret None
       ∧ ∀ code, (list_contexts serve fuel client r).1.1 ≠ SysExit code)
  ∧ (∀ (Remote : Type) (serve : Remote -> Request -> outcome * Remote)
       args' api_token file' fuel r,
       Log AbortNoContexts ∉ (main serve py_str args' api_token file' fuel r).2).
Proof.
  intros self result args file run.
  split; [by repeat split|]. split; [by repeat split|].
  split.
  { do 3 (split; [reflexivity|]). intros Hin. in_lines Hin. }
  split.
  - intros Remote serve fuel client r.
    destruct (list_contexts_loop_always serve fuel client ∅ None
                (fun _ => True) (fun _ => False) ltac:(done) r) as [_ Hres].
    unfold list_contexts.
    destruct (list_contexts_loop _ _ _ _ _ _).1.1 as [[d|]|code| |e];
      try done.
  - intros Remote serve args' api_token file' fuel r Hin.
    destruct (main_always serve py_str args' api_token file' fuel r)
      as [Hall _].
    rewrite Forall_forall in Hall. by apply (Hall _ Hin).
Qed.

(** C3. A listing of a group's variables that fails is not always
    survived.  One group [g], found with id [c1], with one variable
    [A]; the listing of the variables of [c1] fails and an upsert
    would be answered.  When the failure is one a handler catches - no
    answer, a refusal whose body is a JSON object or no JSON, a 2xx
    body that is no JSON, an item without [variable] - the listing
    gives the empty set, [A] is upserted and reported as created and
    the run exits with status 0.  When the listing is refused with a
    body that is JSON and no object, or its 2xx body is JSON and no
    object or has an [items] that cannot be read, the listing raises,
    the run ends there with status 1, [A] is never upserted and the
    answer the upsert would have got is left unread. *)
Theorem failed_variable_listing_can_end_the_run (py_str : yaml -> string) :
  let args := mkArgs "contexts.yml" "org" false in
  let file := Parsed (YMap [("g", YSeq [YMap [("A", YStr "x")]])]) in
  let client := mkClient CIRCLECI_API_BASE_URL "org" "token" in
  let found := Returned (Some (mkBody [] (Some [[("id", "c1"); ("name", "g")]]))) in
  let answered := Returned (Some (mkBody [] None)) in
  let put_A := put_request py_str client "c1" ("A", YStr "x") in
  Forall (fun listing =>
            let names := list_environment_variables serve_script 2 client "c1"
                           [listing] in
            let run := main serve_script py_str args (Some "token") file 2
                         [found; listing; answered] in
            names.1.1 = Ret ∅
            ∧ run.1.1 = Ret tt
            ∧ exit_status run.1.1 = Some 0%Z
            ∧ upserts run.2 = [put_A]
            ∧ Log (VariableDone Created "A" "g") ∈ run.2
            ∧ Log ScriptFinished ∈ run.2)
         [RequestException None; RequestException (Some 500%Z); Returned None;
          Returned (Some (mkBody [] (Some [[("value", "x")]])))]
  ∧ Forall (fun listing =>
              let names := list_environment_variables serve_script 2 client "c1"
                             [listing.1] in
              let run := main serve_script py_str args (Some "token") file 2
                           [found; listing.1; answered] in
              names.1.1 = Raised listing.2
              ∧ run.1.1 = Raised listing.2
              ∧ exit_status run.1.1 = Some 1%Z
              ∧ run.1.2 = [answered]
              ∧ upserts run.2 = []
              ∧ (∀ a, Log (VariableDone a "A" "g") ∉ run.2)
              ∧ (Log ScriptFinished ∉ run.2))
           [(RequestExceptionOdd 500, AttributeError);
            (ReturnedOdd NotAnObject, AttributeError);
            (ReturnedOdd (UnreadableItems []), TypeError)].
Proof.
  intros args file client found answered put_A. split.
  - repeat constructor; in_trace.
  - repeat constructor; try (intros; intros Hin; in_lines Hin).
Qed.

(** C4. A creation that fails does not always leave the other groups
    their turn.  Two groups, [g] and [h], neither of them at the
    remote; the creation of [g] fails, that of [h] would give id [c2].
    When the failure is one a handler catches - no answer, a refusal
    whose body is a JSON object or no JSON, a 2xx body that is no JSON
    or has no [id] - [g] is skipped, [h] is created, its variable [B]
    is upserted and reported and the run exits with status 0; nothing
    is upserted for [g].  When the creation is refused with a body that
    is JSON and no object, or its 2xx body is JSON and no object, an
    [AttributeError] ends the run with status 1 right there: [g] is not
    reported as skipped, [h] is never taken up and the three answers
    waiting for it are left unread. *)
Theorem failed_creation_can_end_the_run (py_str : yaml -> string) :
  let args := mkArgs "contexts.yml" "org" false in
  let file := Parsed (YMap [("g", YSeq [YMap [("A", YStr "x")]]);
                            ("h", YSeq [YMap [("B", YStr "y")]])]) in
  let client := mkClient CIRCLECI_API_BASE_URL "org" "token" in
  let no_groups := Returned (Some (mkBody [] (Some []))) in
  let created_h := Returned (Some (mkBody [("id", "c2"); ("name", "h")] None)) in
  let no_names := Returned (Some (mkBody [] (Some []))) in
  let answered := Returned (Some (mkBody [] None)) in
  let put_B := put_request py_str client "c2" ("B", YStr "y") in
  Forall (fun creation =>
            let run := main serve_script py_str args (Some "token") file 2
                         [no_groups; creation; created_h; no_names; answered] in
            run.1.1 = Ret tt
            ∧ exit_status run.1.1 = Some 0%Z
            ∧ creations run.2 = [create_request client "g";
                                 create_request client "h"]
            ∧ upserts run.2 = [put_B]
            ∧ Log (SkippingContext "g") ∈ run.2
            ∧ Log (VariableDone Created "B" "h") ∈ run.2
            ∧ Log ScriptFinished ∈ run.2)
         [RequestException None; RequestException (Some 403%Z); Returned None;
          Returned (Some (mkBody [("name", "g")] None))]
  ∧ Forall (fun creation =>
              let run := main serve_script py_str args (Some "token") file 2
                           [no_groups; creation; created_h; no_names; answered] in
              run.1.1 = Raised AttributeError
              ∧ exit_status run.1.1 = Some 1%Z
              ∧ run.1.2 = [created_h; no_names; answered]
              ∧ requests run.2 = [list_request client None;
                                  create_request client "g"]
              ∧ (Log (SkippingContext "g") ∉ run.2)
              ∧ (Log (ProcessingContext "h") ∉ run.2)
              ∧ (Log ScriptFinished ∉ run.2))
           [RequestExceptionOdd 403; ReturnedOdd NotAnObject].
Proof.
  intros args file client no_groups created_h no_names answered put_B. split.
  - repeat constructor; in_trace.
  - repeat constructor; try (intros Hin; in_lines Hin).
Qed.

(** C5. In a real run the label follows the fetched names and the call
    is the same either way, but not every desired variable gets its
    call.  One group [g], found with id [c1], whose listed variables
    are [A]; the document gives [A] and [B].  When both upserts are
    answered, two are sent, [A] is reported as updated and [B] as
    created.  When the upsert of [A] gets no answer or a refusal whose
    body is a JSON object or no JSON, [A] is reported as failed and [B]
    is upserted all the same.  When the upsert of [A] is refused with a
    body that is JSON and no object, [_request] raises: the run ends
    with status 1, the upsert of [B] is never sent, its answer is left
    unread and no variable is reported at all. *)
Theorem refused_upsert_can_end_the_run (py_str : yaml -> string) :
  let args := mkArgs "contexts.yml" "org" false in
  let file := Parsed (YMap [("g", YSeq [YMap [("A", YStr "x")];
                                        YMap [("B", YStr "y")]])]) in
  let client := mkClient CIRCLECI_API_BASE_URL "org" "token" in
  let found := Returned (Some (mkBody [] (Some [[("id", "c1"); ("name", "g")]]))) in
  let names := Returned (Some (mkBody [] (Some [[("variable", "A")]]))) in
  let answered := Returned (Some (mkBody [] None)) in
  let put_A := put_request py_str client "c1" ("A", YStr "x") in
  let put_B := put_request py_str client "c1" ("B", YStr "y") in
  let run := fun first =>
    main serve_script py_str args (Some "token") file 2
      [found; names; first; answered] in
  ((list_environment_variables serve_script 2 client "c1" [names]).1.1
   = Ret {["A"]})
  ∧ ((run answered).1.1 = Ret tt
     ∧ upserts (run answered).2 = [put_A; put_B]
     ∧ Log (VariableDone Updated "A" "g") ∈ (run answered).2
     ∧ Log (VariableDone Created "B" "g") ∈ (run answered).2)
  ∧ Forall (fun refusal =>
              (run refusal).1.1 = Ret tt
              ∧ upserts (run refusal).2 = [put_A; put_B]
              ∧ Log (VariableFailed "A" "g") ∈ (run refusal).2
              ∧ Log (VariableDone Created "B" "g") ∈ (run refusal).2)
           [RequestException None; RequestException (Some 500%Z)]
  ∧ ((run (RequestExceptionOdd 500)).1.1 = Raised AttributeError
     ∧ exit_status (run (RequestExceptionOdd 500)).1.1 = Some 1%Z
     ∧ (run (RequestExceptionOdd 500)).1.2 = [answered]
     ∧ upserts (run (RequestExceptionOdd 500)).2 = [put_A]
     ∧ (∀ a v, Log (VariableDone a v "g") ∉ (run (RequestExceptionOdd 500)).2)
     ∧ (∀ v, Log (VariableFailed v "g") ∉ (run (RequestExceptionOdd 500)).2)
     ∧ (Log ScriptFinished ∉ (run (RequestExceptionOdd 500)).2)).
Proof.
  intros args file client found names answered put_A put_B run.
  split; [by vm_compute|]. split; [repeat split; in_trace|].
  split; [repeat constructor; in_trace|].
  repeat split; try (intros; intros Hin; in_lines Hin).
Qed.

(** ** The reference remote *)

Lemma id_of_inj a b : id_of a = id_of b -> a = b.
Proof. unfold id_of. intros [= H]. exact H. Qed.

Lemma truthy_id_of name : truthy_opt (Some (id_of name)) = Some (id_of name).
Proof. done. Qed.

Lemma has_id_spec name g : has_id (id_of name) g = true ↔ g.1 = name.
Proof.
  unfold has_id. rewrite String.eqb_eq. split; [apply id_of_inj|by intros ->].
Qed.

Lemma group_of_name d name grp : group_of d name = Some grp -> grp.1 = name.
Proof.
  unfold group_of. intros H. apply find_some in H as [_ H].
  by apply has_id_spec.
Qed.







(** *** The client against the reference remote *)











(** *** One group against the reference remote *)










(** *** The loop over the groups against the reference remote *)

Lemma covers_grew d d' cfg : covers d cfg -> grew d d' -> covers d' cfg.
Proof.
  intros Hc Hg g Hin. destruct (Hc g Hin) as (grp & Hgrp & Hent).
  destruct (Hg _ _ Hgrp) as (grp' & Hgrp' & Hsub).
  exists grp'. split; [done|]. auto.
Qed.



(** ** A whole real run *)

Section RealMain.

Context {Remote : Type}.
Variable serve : Remote -> Request -> outcome * Remote.
Variable py_str : yaml -> string.
Implicit Types (r : Remote).

#[local] Arguments process_contexts : simpl never.
#[local] Arguments list_contexts : simpl never.



End RealMain.




(** ** The empty document *)

(** The loader takes the empty mapping: it has the shape.  [main] tests
    what was loaded for truth, not against [None], and so exits with
    status 1 on it as on a document that was turned down - without the
    error line, and before any request. *)
Lemma empty_document_exits
    (Remote : Type) (serve : Remote -> Request -> outcome * Remote)
    (py_str : yaml -> string) args api_token fuel r :
  document_shape (YMap [])
  ∧ load_config_yaml (Parsed (YMap [])) = (Some [], [ConfigLoaded])
  ∧ (main serve py_str args api_token (Parsed (YMap [])) fuel r).1.1 = SysExit 1
  ∧ requests (main serve py_str args api_token (Parsed (YMap [])) fuel r).2 = [].
Proof.
  split; [by exists []|]. split; [done|].
  unfold main. rewrite run_bind.
  by destruct (truthy_opt api_token).
Qed.

(** * More of the program *)

(** ** Credentials *)

Lemma truthy_value_Some o t : truthy_value o = Some t -> o = Some t ∧ yaml_truthy t = true.
Proof.
  destruct o as [v|]; [|done]. simpl.
  destruct (yaml_truthy v) eqn:Hv; [|done]. by intros [= <-].
Qed.

Lemma truthy_value_idemp o : truthy_value (truthy_value o) = truthy_value o.
Proof.
  destruct o as [v|]; [|done]. simpl.
  by destruct (yaml_truthy v) eqn:Hv; simpl; rewrite ?Hv.
Qed.

(** What [get_api_token] returns, by what the two sources hold. *)
Lemma get_api_token_result cli_yml environ :
  (get_api_token cli_yml environ).1
  = match file_token cli_yml with
    | Some t => Some t
    | None => truthy_value (YStr <$> environ)
    end.
Proof.
  unfold get_api_token, file_token.
  destruct cli_yml as [| | |[|b0|z0|s0|l0|kv]]; simpl;
    try (by destruct (truthy_value (YStr <$> environ)) as [t|] eqn:Henv;
         rewrite ?Henv).
  destruct (truthy_value (yaml_get kv "token")) as [t|] eqn:Hfile.
  - apply truthy_value_Some in Hfile as [-> Ht]. simpl. by rewrite Ht.
  - by destruct (truthy_value (YStr <$> environ)) as [t|] eqn:Henv; rewrite ?Henv.
Qed.

(** X1. The credential file comes first: a token it holds is the one
    returned, whatever the environment says.  Whatever is wrong with the
    file - not there, unreadable, not YAML, not a mapping, no token in
    it, an empty one - the environment variable decides, and an empty
    variable counts for none.  A token that is returned is never
    empty. *)
Theorem get_api_token_sources (cli_yml : config_file) (environ : option string) :
  (∀ t, file_token cli_yml = Some t ->
        (get_api_token cli_yml environ).1 = Some t)
  ∧ (file_token cli_yml = None ->
     (get_api_token cli_yml environ).1 = YStr <$> truthy_opt environ)
  ∧ (∀ t, (get_api_token cli_yml environ).1 = Some t -> yaml_truthy t = true).
Proof.
  rewrite get_api_token_result. split; [by intros t ->|]. split.
  - intros ->. destruct environ as [s|]; [|done]. simpl. by destruct (truthy s).
  - intros t. destruct (file_token cli_yml) as [t'|] eqn:Hfile.
    + intros [= <-]. unfold file_token in Hfile.
      destruct cli_yml as [| | |[|b0|z0|s0|l0|kv]]; try done.
      by apply truthy_value_Some in Hfile as [_ ?].
    + by intros [_ ?]%truthy_value_Some.
Qed.

Lemma get_api_token_sources_witness :
  (get_api_token (Parsed (YMap [("host", YStr "h"); ("token", YStr "abc")]))
     (Some "env")).1 = Some (YStr "abc")
  ∧ (get_api_token Malformed (Some "env")).1 = Some (YStr "env")
  ∧ (get_api_token (Parsed (YMap [("token", YStr "")])) (Some "")).1 = None.
Proof.
  split.
  { by apply (proj1 (get_api_token_sources
                       (Parsed (YMap [("host", YStr "h"); ("token", YStr "abc")]))
                       (Some "env"))). }
  split.
  { by apply (proj1 (proj2 (get_api_token_sources Malformed (Some "env")))). }
  by apply (proj1 (proj2 (get_api_token_sources
                            (Parsed (YMap [("token", YStr "")])) (Some "")))).
Defined.

(** X2. [get_api_token] returns [None] exactly when neither source holds
    a token; it then ends its log with the three error lines, and writes
    none of them when it returns a token. *)
Theorem get_api_token_missing (cli_yml : config_file) (environ : option string) :
  ((get_api_token cli_yml environ).1 = None
   ↔ file_token cli_yml = None ∧ truthy_opt environ = None)
  ∧ ((get_api_token cli_yml environ).1 = None ->
     ∃ lines, (get_api_token cli_yml environ).2
              = lines ++ [TokenNotFound; TokenHintFile; TokenHintEnv])
  ∧ (is_Some (get_api_token cli_yml environ).1 ->
     (TokenNotFound ∉ (get_api_token cli_yml environ).2)
     ∧ (TokenHintFile ∉ (get_api_token cli_yml environ).2)
     ∧ (TokenHintEnv ∉ (get_api_token cli_yml environ).2)).
Proof.
  split.
  { rewrite get_api_token_result.
    destruct (file_token cli_yml) as [t|]; [by split; [|intros [? _]]|].
    destruct environ as [s|]; [|done]. simpl.
    destruct (truthy s); simpl; by split; [|intros [_ ?]]. }
  unfold get_api_token.
  destruct cli_yml as [| | |[|b0|z0|s0|l0|kv]];
    try (destruct environ as [s|]; [destruct (truthy s) eqn:Hs|];
         cbn -[app elem_of]; rewrite ?Hs;
         (split; [intros; try done; by eexists
                 |intros Hsome; try (by destruct Hsome);
                  repeat split; intros Hin; simpl in Hin; in_lines Hin])).
  destruct (truthy_value (yaml_get kv "token")) as [t|] eqn:Hfile.
  - apply truthy_value_Some in Hfile as [Hget Ht].
    cbn -[app elem_of]. rewrite Hget. cbn -[app elem_of]. rewrite Ht.
    split; [done|]. intros _. repeat split; intros Hin; in_lines Hin.
  - destruct environ as [s|]; [destruct (truthy s) eqn:Hs|];
      cbn -[app elem_of]; rewrite ?Hfile; cbn -[app elem_of]; rewrite ?Hs;
      (split; [intros; try done; by eexists
              |intros Hsome; try (by destruct Hsome);
               repeat split; intros Hin; simpl in Hin; in_lines Hin]).
Qed.

Lemma get_api_token_missing_witness :
  (∃ lines, (get_api_token (Parsed (YMap [("host", YStr "h")])) (Some "")).2
            = lines ++ [TokenNotFound; TokenHintFile; TokenHintEnv])
  ∧ (TokenHintEnv
     ∉ (get_api_token (Parsed (YMap [("host", YStr "h")])) (Some "t")).2).
Proof.
  split.
  - apply (proj1 (proj2 (get_api_token_missing
                           (Parsed (YMap [("host", YStr "h")])) (Some "")))).
    reflexivity.
  - apply (proj2 (proj2 (get_api_token_missing
                           (Parsed (YMap [("host", YStr "h")])) (Some "t")))).
    by eexists.
Defined.

(** ** The first defect of a document *)

Lemma validate_contexts_first_defect pre ctx_name value post :
  Forall (fun g => group_shape g.2) pre -> ¬ group_shape value ->
  validate_contexts (pre ++ (ctx_name, value) :: post)
  = inl (value_error ctx_name value).
Proof.
  intros Hpre Hbad. induction Hpre as [|[n v] pre (its & Hv & Hits) _ IH]; simpl.
  - destruct value as [| | | |its|]; try done.
    destruct (forallb is_single_pair its) eqn:Hits; [|done].
    destruct Hbad. exists its. split; [done|]. by apply forallb_single_pair.
  - simpl in Hv. subst v. apply forallb_single_pair in Hits.
    by rewrite Hits, IH.
Qed.

Lemma validate_contexts_defect groups e :
  validate_contexts groups = inl e ->
  ∃ pre ctx_name value post,
    groups = pre ++ (ctx_name, value) :: post
    ∧ Forall (fun g => group_shape g.2) pre ∧ ¬ group_shape value.
Proof.
  induction groups as [|[n v] rest IH]; [done|]. simpl.
  assert (Hhere : ¬ group_shape v ->
    ∃ pre ctx_name value post,
      (n, v) :: rest = pre ++ (ctx_name, value) :: post
      ∧ Forall (fun g => group_shape g.2) pre ∧ ¬ group_shape value).
  { intros Hbad. by exists [], n, v, rest. }
  destruct v as [| | | |its|]; try (intros _; apply Hhere; by intros (? & ? & _)).
  destruct (forallb is_single_pair its) eqn:Hits.
  - destruct (validate_contexts rest) as [e'|cfg]; [|done]. intros Heq.
    destruct (IH Heq) as (pre & cn & value & post & -> & Hpre & Hbad).
    exists ((n, YSeq its) :: pre), cn, value, post. split; [done|].
    split; [|done]. constructor; [|done].
    exists its. split; [done|]. by apply forallb_single_pair.
  - intros _. apply Hhere. intros (its' & [= <-] & Hall).
    apply forallb_single_pair in Hall. congruence.
Qed.

(** X3. The loader goes through the groups in document order and stops
    at the first one that is ill-formed: when every group before it is
    a list of single-pair mappings, the load fails with one line that
    names that group - the list error when its value is no list, the
    item error when it is a list - whatever comes after it.  A document
    with a mapping at the root that does not load has such a group. *)
Theorem load_config_yaml_first_defect
    (pre post : list (string * yaml)) (ctx_name : string) (value : yaml) :
  Forall (fun g => group_shape g.2) pre -> ¬ group_shape value ->
  load_config_yaml (Parsed (YMap (pre ++ (ctx_name, value) :: post)))
  = (None, [value_error ctx_name value])
  ∧ ∀ groups, (load_config_yaml (Parsed (YMap groups))).1 = None ->
      ∃ pre' ctx_name' value' post',
        groups = pre' ++ (ctx_name', value') :: post'
        ∧ Forall (fun g => group_shape g.2) pre' ∧ ¬ group_shape value'.
Proof.
  intros Hpre Hbad. split.
  - simpl. by rewrite validate_contexts_first_defect.
  - intros groups. simpl.
    destruct (validate_contexts groups) as [e|cfg] eqn:Hv; [|done].
    intros _. by apply (validate_contexts_defect groups e).
Qed.

Lemma load_config_yaml_first_defect_witness :
  load_config_yaml
    (Parsed (YMap [("a", YSeq [YMap [("A", YStr "x")]]);
                   ("b", YSeq [YStr "B=y"]);
                   ("c", YStr "no list")]))
  = (None, [InvalidVariableFormat "b"]).
Proof.
  apply (load_config_yaml_first_defect
           [("a", YSeq [YMap [("A", YStr "x")]])] [("c", YStr "no list")]
           "b" (YSeq [YStr "B=y"])).
  - constructor; [|constructor]. exists [YMap [("A", YStr "x")]].
    split; [done|]. constructor; [|constructor]. by exists "A", (YStr "x").
  - intros (its & [= <-] & Hall). inversion Hall as [|? ? (k & v & Hk) _]. done.
Defined.

(** ** The set-up of a run *)

Section Setup.

Context {Remote : Type}.
Variable serve : Remote -> Request -> outcome * Remote.
Variable py_str : yaml -> string.
Implicit Types (r : Remote).

#[local] Arguments process_contexts : simpl never.
#[local] Arguments list_contexts : simpl never.

Lemma main_not_set_up args api_token file fuel r :
  setup_ok args api_token file = false ->
  let run := main serve py_str args api_token file fuel r in
  run.1.1 = SysExit 1 ∧ run.1.2 = r ∧ requests run.2 = []
  ∧ Log FetchingContexts ∉ run.2.
Proof.
  unfold setup_ok, main. rewrite run_bind.
  destruct (truthy_opt api_token) as [tok|] eqn:Htok; simpl;
    [|intros _; repeat split; by intros ?%elem_of_nil].
  apply truthy_opt_Some in Htok as [_ Htok].
  rewrite run_bind.
  pose proof (load_lines_kinds file) as Hkinds.
  destruct (load_config_yaml file) as [loaded lines]. simpl.
  assert (Hlines : Log FetchingContexts ∉ map Log lines).
  { intros (m & [= <-] & Hm)%list_elem_of_fmap.
    destruct (Hkinds _ Hm) as [Hin|(g & [?|?])]; [in_lines Hin|done..]. }
  destruct loaded as [[|g gs]|]; rewrite run_bind; simpl;
    [intros _; rewrite app_nil_r; by rewrite requests_logs| |
     intros _; rewrite app_nil_r; by rewrite requests_logs].
  intros Horg. rewrite run_bind.
  destruct (dry_run args); simpl; rewrite run_bind;
    unfold CircleCIClient_init; rewrite Htok, Horg; simpl;
    rewrite requests_app, requests_logs;
    do 3 (split; [done|]);
    intros [?|Hin]%elem_of_app; try done; in_lines Hin.
Qed.


End Setup.

(** X4. A run that is not set up - no token, a document that does not
    load or that loads as the empty mapping, an empty organisation id -
    exits with status 1 before it reaches the remote: no request is
    sent, the remote is as it was and the fetch of the existing groups
    is not announced. *)
Theorem main_stops_when_not_set_up
    (Remote : Type) (serve : Remote -> Request -> outcome * Remote)
    (py_str : yaml -> string) args api_token file fuel r :
  setup_ok args api_token file = false ->
  let run := main serve py_str args api_token file fuel r in
  exit_status run.1.1 = Some 1%Z
  ∧ run.1.2 = r
  ∧ requests run.2 = []
  ∧ Log FetchingContexts ∉ run.2.
Proof.
  intros Hno.
  destruct (main_not_set_up serve py_str args api_token file fuel r Hno)
    as (Hexit & Hr & Hreq & Hlog).
  simpl. by rewrite Hexit.
Qed.

Lemma main_stops_when_not_set_up_witness :
  let args := mkArgs "contexts.yml" "" false in
  let file := Parsed (YMap [("g", YSeq [YMap [("A", YStr "x")]])]) in
  let run := main serve_directory (fun _ => "") args (Some "token") file 1
               [("g", ["A"])] in
  exit_status run.1.1 = Some 1%Z ∧ run.1.2 = [("g", ["A"])] ∧ requests run.2 = [].
Proof.
  intros args file run.
  destruct (main_stops_when_not_set_up Directory serve_directory (fun _ => "")
              args (Some "token") file 1 [("g", ["A"])] eq_refl)
    as (Hexit & Hr & Hreq & _).
  by repeat split.
Defined.

(** ** The exceptions nothing catches *)

Section Raises.

Context {Remote : Type}.
Variable serve : Remote -> Request -> outcome * Remote.
Variable py_str : yaml -> string.
Implicit Types (r : Remote) (self client : CircleCIClient).




Lemma quiet_out_of_fuel {A} : raises_on_odd (out_of_fuel : M Remote A).
Proof. by intros r e. Qed.










End Raises.



(** ** What a run sends and writes *)

Section Emits.

Context {Remote : Type}.
Variable serve : Remote -> Request -> outcome * Remote.
Variable py_str : yaml -> string.
Variable P : Event -> Prop.
Hypothesis client_lines : ∀ m, client_line m = true -> P (Log m).
Implicit Types (r : Remote) (self client : CircleCIClient).

Lemma _request_emits self method endpoint json E :
  (∀ out, P (Http (mkRequest method (base_url self) endpoint json) out)) ->
  always (_request serve self method endpoint json) P (fun _ => True) E.
Proof.
  intros Hreq r. rewrite _request_run. simpl.
  destruct (serve r _) as [[[code|]|resp|code|body] r']; simpl; split;
    try done; repeat constructor; auto.
Qed.

Lemma list_contexts_loop_emits fuel self contexts token E :
  (∀ tok out, P (Http (list_request self tok) out)) ->
  always (list_contexts_loop serve fuel self contexts token) P
         (fun res => res ≠ None) E.
Proof.
  intros Hreq. revert contexts token.
  induction fuel as [|fuel IH]; intros contexts token; simpl.
  { apply always_out_of_fuel. }
  eapply always_bind; [apply _request_emits; intros out; apply Hreq|].
  intros response _.
  destruct response as [[[data|]|[|odd_fields]]|];
    try apply always_raise;
    try (eapply (always_bind _ _ _ (fun _ => True));
         [apply always_log; [by apply client_lines|done]
         |intros _ _; by apply always_ret]).
  destruct (add_contexts _ _);
    try (eapply (always_bind _ _ _ (fun _ => True));
         [apply always_log; [by apply client_lines|done]
         |intros _ _; by apply always_ret]).
  destruct (truthy_opt _); [apply IH|].
  eapply (always_bind _ _ _ (fun _ => True));
    [apply always_log; [by apply client_lines|done]
    |intros _ _; by apply always_ret].
Qed.

Lemma create_context_emits self name E :
  (∀ out, P (Http (create_request self name) out)) ->
  always (create_context serve self name) P (fun _ => True) E.
Proof.
  intros Hreq. unfold create_context.
  eapply (always_bind _ _ _ (fun _ => True));
    [apply always_log; [by apply client_lines|done]|]. intros _ _.
  eapply always_bind; [apply _request_emits; intros out; apply Hreq|].
  intros response _.
  destruct response as [[[data|]|[|odd_fields]]|];
    try apply always_raise; try (by apply always_ret);
    try destruct (truthy_opt _);
    (eapply (always_bind _ _ _ (fun _ => True));
     [apply always_log; [by apply client_lines|done]
     |intros _ _; by apply always_ret]).
Qed.

Lemma list_environment_variables_loop_emits fuel self cid vars token E :
  (∀ tok out, P (Http (vars_request self cid tok) out)) ->
  always (list_environment_variables_loop serve fuel self cid vars token) P
         (fun _ => True) E.
Proof.
  intros Hreq. revert vars token.
  induction fuel as [|fuel IH]; intros vars token; simpl.
  { apply always_out_of_fuel. }
  eapply always_bind; [apply _request_emits; intros out; apply Hreq|].
  intros response _.
  destruct response as [[[data|]|[|odd_fields]]|];
    try apply always_raise;
    try (eapply (always_bind _ _ _ (fun _ => True));
         [apply always_log; [by apply client_lines|done]
         |intros _ _; by apply always_ret]).
  destruct (add_variables _ _);
    try (eapply (always_bind _ _ _ (fun _ => True));
         [apply always_log; [by apply client_lines|done]
         |intros _ _; by apply always_ret]).
  destruct (truthy_opt _); [apply IH|by apply always_ret].
Qed.

Lemma create_or_update_emits self cid v x E :
  (∀ out, P (Http (put_request py_str self cid (v, x)) out)) ->
  always (create_or_update_environment_variable serve py_str self cid v x) P
         (fun _ => True) E.
Proof.
  intros Hreq. unfold create_or_update_environment_variable.
  eapply always_bind; [apply _request_emits; intros out; apply Hreq|].
  intros response _.
  destruct response; [by apply always_ret|].
  eapply (always_bind _ _ _ (fun _ => True));
    [apply always_log; [by apply client_lines|done]
    |intros _ _; by apply always_ret].
Qed.

End Emits.

Lemma var_entries_single (vars : list yaml) v x :
  YMap [(v, x)] ∈ vars -> (v, x) ∈ var_entries vars.
Proof.
  intros Hin. apply list_elem_of_omap. by exists (YMap [(v, x)]).
Qed.

Lemma elem_of_requests (t : list Event) req :
  req ∈ requests t ↔ ∃ out, Http req out ∈ t.
Proof.
  unfold requests. rewrite list_elem_of_omap. split.
  - intros ([req' out|m] & Hin & [= <-]). by exists out.
  - intros (out & Hin). by exists (Http req out).
Qed.

Lemma extends_refl snapshot : extends snapshot snapshot.
Proof. by intros name id. Qed.

Lemma desired_event_client_line py_str client cfg snapshot m :
  client_line m = true -> desired_event py_str client cfg snapshot (Log m).
Proof. by destruct m. Qed.

Section Desired.

Context {Remote : Type}.
Variable serve : Remote -> Request -> outcome * Remote.
Variable py_str : yaml -> string.
Implicit Types (r : Remote) (client : CircleCIClient).

#[local] Arguments list_environment_variables : simpl never.
#[local] Arguments create_context : simpl never.

Lemma process_variables_desired client dry cname cid names vars cfg snapshot
    all_vars E :
  (cname, all_vars) ∈ cfg -> (∀ item, item ∈ vars -> item ∈ all_vars) ->
  (∀ id, truthy_opt (snapshot !! cname) = Some id -> cid = id) ->
  always (process_variables serve py_str client dry cname cid names vars)
         (desired_event py_str client cfg snapshot) (fun _ => True) E.
Proof.
  intros Hcfg Hsub Hid. induction vars as [|var_dict rest IH]; simpl.
  { by apply always_ret. }
  eapply (always_bind _ _ _ (fun _ => True));
    [|intros _ _; apply IH; intros item Hitem; apply Hsub; by right].
  assert (Hskip : is_single_pair var_dict = false ->
            always (log (SkippingInvalidEntry cname) : M Remote unit)
              (desired_event py_str client cfg snapshot) (fun _ => True) E).
  { intros Hno. apply always_log; [|done].
    exists all_vars, var_dict. split; [done|]. split; [|done].
    apply Hsub. by left. }
  destruct var_dict as [| | | | |[|[v x] [|]]]; try by apply Hskip.
  destruct dry; [by apply always_log|].
  eapply always_bind.
  - apply create_or_update_emits; [apply desired_event_client_line|].
    intros out. exists cname, all_vars, cid. split; [done|]. split; [done|].
    right. right. exists (v, x). split; [|done].
    apply var_entries_single, Hsub. by left.
  - intros [] _; by apply always_log.
Qed.

Lemma process_context_desired client dry fuel snapshot existing cname vars
    cfg E :
  (cname, vars) ∈ cfg -> extends snapshot existing ->
  always (process_context serve py_str client dry fuel existing cname vars)
         (desired_event py_str client cfg snapshot)
         (fun existing' => extends snapshot existing') E.
Proof.
  intros Hcfg Hext. unfold process_context, ensure_context.
  eapply (always_bind _ _ _
            (fun found => match found with
                          | Some (cid, existing') =>
                              extends snapshot existing'
                              ∧ ∀ id, truthy_opt (snapshot !! cname) = Some id ->
                                      cid = id
                          | None => True
                          end)).
  - eapply (always_bind _ _ _ (fun _ => True)); [by apply always_log|].
    intros _ _.
    destruct (truthy_opt (existing !! cname)) as [cid|] eqn:Hfound.
    { eapply (always_bind _ _ _ (fun _ => True)); [by apply always_log|].
      intros _ _. apply always_ret. split; [done|].
      intros id Hid. apply Hext in Hid. congruence. }
    assert (Hnew : truthy_opt (snapshot !! cname) = None).
    { destruct (truthy_opt (snapshot !! cname)) as [id|] eqn:Hid; [|done].
      apply Hext in Hid. congruence. }
    eapply (always_bind _ _ _ (fun _ => True)); [by apply always_log|].
    intros _ _.
    destruct dry.
    { eapply (always_bind _ _ _ (fun _ => True)); [by apply always_log|].
      intros _ _. apply always_ret. split; [done|]. intros id. by rewrite Hnew. }
    eapply always_bind.
    + apply create_context_emits; [apply desired_event_client_line|].
      intros out. exists cname, vars, "". split; [done|].
      split; [intros id; by rewrite Hnew|]. by left.
    + intros created _. destruct (truthy_opt created) as [cid|].
      * apply always_ret. split; [|intros id; by rewrite Hnew].
        intros name id Hname. rewrite lookup_insert_ne; [by apply Hext|].
        intros <-. congruence.
      * eapply (always_bind _ _ _ (fun _ => True)); [by apply always_log|].
        intros _ _. by apply always_ret.
  - intros [[cid existing']|]; [|intros _; by apply always_ret].
    intros [Hext' Hid].
    eapply (always_bind _ _ _ (fun _ => True)); [by apply always_log|].
    intros _ _.
    eapply (always_bind _ _ _ (fun _ => True)).
    + destruct dry; [by apply always_ret|].
      apply list_environment_variables_loop_emits;
        [apply desired_event_client_line|].
      intros tok out. exists cname, vars, cid. split; [done|]. split; [done|].
      right. left. by exists tok.
    + intros names _.
      eapply always_bind;
        [by apply (process_variables_desired _ _ _ _ _ _ _ _ vars)|].
      intros _ _. by apply always_ret.
Qed.

Lemma process_contexts_desired client dry fuel snapshot existing rest cfg E :
  (∀ g, g ∈ rest -> g ∈ cfg) -> extends snapshot existing ->
  always (process_contexts serve py_str client dry fuel existing rest)
         (desired_event py_str client cfg snapshot) (fun _ => True) E.
Proof.
  intros Hsub. revert existing.
  induction rest as [|[cname vars] rest IH]; intros existing Hext; simpl.
  { by apply always_ret. }
  eapply always_bind.
  - apply process_context_desired; [|done]. apply Hsub. by left.
  - intros existing' Hext'. apply IH; [|done].
    intros g Hg. apply Hsub. by right.
Qed.

End Desired.

Lemma desired_request_static py_str client cfg snapshot req :
  desired_request py_str client cfg snapshot req ->
  desired_request py_str client cfg ∅ req.
Proof.
  intros (cname & vars & cid & Hcfg & _ & Hreq).
  exists cname, vars, cid. split; [done|]. split; [done|].
  destruct Hreq as [[-> _]|Hreq]; [by left|by right].
Qed.

Section RunEvents.

Context {Remote : Type}.
Variable serve : Remote -> Request -> outcome * Remote.
Variable py_str : yaml -> string.
Implicit Types (r : Remote) (client : CircleCIClient).

#[local] Arguments process_contexts : simpl never.

Lemma main_run_events args api_token file fuel :
  always (main serve py_str args api_token file fuel)
         (run_event py_str args api_token file) (fun _ => True) (fun _ => True).
Proof.
  unfold main.
  destruct (truthy_opt api_token) as [tok|] eqn:Htok.
  2: { eapply (always_bind _ _ _ (fun _ => False)); [by apply always_sys_exit|done]. }
  apply truthy_opt_Some in Htok as [-> Htok].
  eapply (always_bind _ _ _ (fun a => a = tok)); [by apply always_ret|].
  intros ? ->.
  pose proof (load_lines_kinds file) as Hkinds.
  unfold run_event.
  destruct (load_config_yaml file) as [loaded lines] eqn:Hload. simpl.
  eapply (always_bind _ _ _ (fun a => a = loaded)).
  { intros r. simpl. split; [|done]. apply Forall_forall.
    intros e (m & -> & Hm)%list_elem_of_fmap c ->.
    destruct (Hkinds _ Hm) as [Hin|(g & [?|?])]; [in_lines Hin|done..]. }
  intros ? ->.
  destruct loaded as [[|g gs]|].
  1, 3: eapply (always_bind _ _ _ (fun _ => False));
          [by apply always_sys_exit|done].
  eapply (always_bind _ _ _ (fun a => a = g :: gs)); [by apply always_ret|].
  intros ? ->.
  eapply (always_bind _ _ _ (fun _ => True)).
  { destruct (dry_run args); [by apply always_log|by apply always_ret]. }
  intros _ _. unfold CircleCIClient_init. rewrite Htok.
  destruct (truthy (org_id args)) eqn:Horg.
  2: { eapply (always_bind _ _ _ (fun _ => False)); [|done].
       eapply (always_bind _ _ _ (fun _ => True)); [by apply always_log|].
       intros _ _. by apply always_sys_exit. }
  eapply (always_bind _ _ _
            (fun a => a = mkClient CIRCLECI_API_BASE_URL (org_id args) tok));
    [by apply always_ret|].
  intros ? ->.
  eapply (always_bind _ _ _ (fun _ => True)).
  { unfold fetch_existing.
    eapply (always_bind _ _ _ (fun _ => True)); [by apply always_log|].
    intros _ _.
    destruct (dry_run args).
    - eapply (always_bind _ _ _ (fun _ => True)); [by apply always_log|].
      intros _ _. by apply always_ret.
    - eapply always_bind.
      + apply list_contexts_loop_emits; [intros m Hm c ->; done|].
        intros page_token out. exists tok, (g :: gs).
        split; [done|]. split; [done|]. left. by exists page_token.
      + intros [d|] Hd; [by apply always_ret|done]. }
  intros existing _.
  eapply (always_bind _ _ _ (fun _ => True)); [|intros; by apply always_log].
  eapply always_weaken;
    [apply (process_contexts_desired _ _ _ _ _ existing existing _ (g :: gs)
              (fun _ => True)); [done|apply extends_refl]| |done|done].
  intros [req out|m]; simpl.
  - intros Hreq. exists tok, (g :: gs). split; [done|]. split; [done|].
    right. by apply (desired_request_static _ _ _ existing).
  - intros Hm c ->. destruct Hm as (vars & item & Hin & Hitem & Hno).
    pose proof (load_config_yaml_items _ _ _ _ _ Hload Hin) as Hall.
    rewrite Forall_forall in Hall. apply Hall, is_single_pair_spec in Hitem.
    congruence.
Qed.

End RunEvents.

(** ** Where the context ids come from *)

Section Backed.

Context {Remote : Type}.
Variable serve : Remote -> Request -> outcome * Remote.
Variable py_str : yaml -> string.
Variable client : CircleCIClient.
Variable cfg : desired_state.
Implicit Types (r : Remote) (known pre : string -> string -> Prop).

Lemma backed_request_mono known known' req :
  (∀ name id, known name id -> known' name id) ->
  backed_request py_str client cfg known req ->
  backed_request py_str client cfg known' req.
Proof.
  intros Hsub [Hlist|(cname & vars & Hin & [Hc|(cid & Hk & Hreq)])];
    [by left|right; exists cname, vars; split; [done|]..].
  - by left.
  - right. exists cid. split; [by apply Hsub|done].
Qed.

Lemma backed_mono known known' t :
  (∀ name id, known name id -> known' name id) ->
  backed py_str client cfg known t -> backed py_str client cfg known' t.
Proof.
  revert known known'. induction t as [|e t IH]; intros known known' Hsub;
    [done|].
  intros [He Ht]. split.
  - destruct e as [req out|m]; [|done]. by eapply backed_request_mono.
  - eapply IH; [|exact Ht]. intros name id [?|?]; [left; by apply Hsub|by right].
Qed.

Lemma supplied_nil name id : ¬ supplied client [] name id.
Proof. by intros (e & ?%elem_of_nil & _). Qed.

Lemma supplied_cons e t name id :
  supplied client (e :: t) name id
  ↔ supplies client e name id ∨ supplied client t name id.
Proof.
  split.
  - intros (e' & [->|Hin]%elem_of_cons & He); [by left|right; by exists e'].
  - intros [He|(e' & Hin & He)]; [exists e; split; [by left|done]|].
    exists e'. split; [by right|done].
Qed.

Lemma supplied_app t1 t2 name id :
  supplied client (t1 ++ t2) name id
  ↔ supplied client t1 name id ∨ supplied client t2 name id.
Proof.
  split.
  - intros (e & [Hin|Hin]%elem_of_app & He); [left|right]; by exists e.
  - intros [(e & Hin & He)|(e & Hin & He)]; exists e;
      (split; [apply elem_of_app; by (left + right)|done]).
Qed.

Lemma backed_app known t1 t2 :
  backed py_str client cfg known t1 ->
  backed py_str client cfg
    (fun name id => known name id ∨ supplied client t1 name id) t2 ->
  backed py_str client cfg known (t1 ++ t2).
Proof.
  revert known. induction t1 as [|e t1 IH]; intros known.
  - intros _. simpl. apply backed_mono. intros name id [?|?]; [done|].
    by destruct (supplied_nil name id).
  - intros [He Ht1] Ht2. split; [done|]. apply IH; [done|].
    eapply backed_mono; [|exact Ht2]. intros name id [?|Hs]; [by left; left|].
    apply supplied_cons in Hs as [?|?]; [left; by right|by right].
Qed.

(** Every request of a backed trace is backed by what was known before
    it or is supplied somewhere in it. *)
Lemma backed_requests known t req :
  backed py_str client cfg known t -> req ∈ requests t ->
  backed_request py_str client cfg
    (fun name id => known name id ∨ supplied client t name id) req.
Proof.
  revert known. induction t as [|e t IH]; intros known; [by intros _ ?%elem_of_nil|].
  intros [He Ht] Hin.
  assert (Hreq : (∃ out, e = Http req out) ∨ req ∈ requests t).
  { destruct e as [req' out|m]; [|by right].
    unfold requests in Hin. simpl in Hin.
    apply elem_of_cons in Hin as [->|Hin]; [left; by exists out|by right]. }
  destruct Hreq as [[out ->]|Hreq].
  - eapply backed_request_mono; [|exact He]. by left.
  - eapply backed_request_mono; [|exact (IH _ Ht Hreq)].
    intros name id [[?|?]|?]; [by left|right..];
      apply supplied_cons; by (left + right).
Qed.

Lemma provided_ret {A} (a : A) pre (post : A -> string -> string -> Prop) :
  (∀ name id, post a name id -> pre name id) ->
  provided py_str client cfg (mret a : M Remote A) pre post.
Proof. intros Hsub known r Hpre. split; [done|]. intros name id ?. left. auto. Qed.

Lemma provided_log m pre (post : unit -> string -> string -> Prop) :
  (∀ name id, post tt name id -> pre name id) ->
  provided py_str client cfg (log m : M Remote unit) pre post.
Proof.
  intros Hsub known r Hpre. split; [done|]. intros name id ?. left. auto.
Qed.

Lemma provided_sys_exit {A} code pre (post : A -> string -> string -> Prop) :
  provided py_str client cfg (sys_exit code : M Remote A) pre post.
Proof. by intros known r Hpre. Qed.

Lemma provided_bind {A B} (m : M Remote A) (f : A -> M Remote B) pre
    (mid : A -> string -> string -> Prop) (post : B -> string -> string -> Prop) :
  provided py_str client cfg m pre mid ->
  (∀ a, provided py_str client cfg (f a) (mid a) post) ->
  provided py_str client cfg (m ≫= f) pre post.
Proof.
  intros Hm Hf known r Hpre. rewrite run_bind.
  destruct (Hm known r Hpre) as [Ht1 Hmid].
  destruct (m r) as [[[a|code| |e] r1] t1]; cbn [fst snd] in *; try done.
  destruct (Hf a (fun name id => known name id ∨ supplied client t1 name id) r1)
    as [Ht2 Hpost]; [done|].
  destruct (f a r1) as [[res r2] t2]; cbn [fst snd] in *.
  split; [by apply backed_app|].
  destruct res as [b| | |]; try done.
  intros name id Hb. destruct (Hpost name id Hb) as [[?|?]|?];
    [by left|right; apply supplied_app; by left|right; apply supplied_app; by right].
Qed.


Lemma provided_raise {A} e pre (post : A -> string -> string -> Prop) :
  provided py_str client cfg (raise e : M Remote A) pre post.
Proof. by intros known r Hpre. Qed.

Lemma provided_out_of_fuel {A} pre (post : A -> string -> string -> Prop) :
  provided py_str client cfg (out_of_fuel : M Remote A) pre post.
Proof. by intros known r Hpre. Qed.

Lemma provided_weaken {A} (m : M Remote A) pre pre'
    (post post' : A -> string -> string -> Prop) :
  provided py_str client cfg m pre post ->
  (∀ name id, pre name id -> pre' name id) ->
  (∀ a name id, post' a name id -> post a name id) ->
  provided py_str client cfg m pre' post'.
Proof.
  intros Hm Hpre Hpost known r Hk.
  destruct (Hm known r) as [Ht Hres]; [auto|]. split; [done|].
  destruct (m r).1.1; try done. auto.
Qed.

Lemma backed_lines known (lines : list Event) :
  Forall (fun e => ∃ m, e = Log m) lines ->
  backed py_str client cfg known lines.
Proof.
  intros Hall. revert known.
  induction Hall as [|e t [m ->] _ IH]; intros known; [done|].
  split; [done|]. apply IH.
Qed.

Lemma failure_lines_logs req status :
  Forall (fun e => ∃ m, e = Log m) (failure_lines req status).
Proof. destruct status; repeat constructor; by eexists. Qed.

(** A request that is backed by what is known; what the answer
    supplies is known afterwards. *)
Lemma provided_request method endpoint json pre :
  (∀ known, (∀ name id, pre name id -> known name id) ->
     backed_request py_str client cfg known
       (mkRequest method (base_url client) endpoint json)) ->
  provided py_str client cfg (_request serve client method endpoint json) pre
    (fun response name id =>
       pre name id
       ∨ ∃ out, supplies client
                  (Http (mkRequest method (base_url client) endpoint json) out)
                  name id
                ∧ match response with
                  | Some (Plain resp) => out = Returned resp
                  | Some (Odd body) => out = ReturnedOdd body
                  | None => False
                  end).
Proof.
  intros Hreq known r Hpre. rewrite _request_run. cbv zeta.
  destruct (serve r _) as [[status|resp|code|body] r']; cbn [fst snd].
  - split; [|by intros name id [?|(out & _ & [])]; left; auto].
    split; [by apply Hreq|]. apply backed_lines, failure_lines_logs.
  - split; [split; [by apply Hreq|done]|].
    intros name id [?|(out & Hs & ->)]; [left; auto|].
    right. eexists. split; [by left|done].
  - split; [|done]. split; [by apply Hreq|]. by split.
  - split; [split; [by apply Hreq|done]|].
    intros name id [?|(out & Hs & ->)]; [left; auto|].
    right. eexists. split; [by left|done].
Qed.


Lemma provided_request_plain method endpoint json pre :
  (∀ known, (∀ name id, pre name id -> known name id) ->
     backed_request py_str client cfg known
       (mkRequest method (base_url client) endpoint json)) ->
  provided py_str client cfg (_request serve client method endpoint json) pre
    (fun _ => pre).
Proof.
  intros Hreq. eapply provided_weaken; [by apply provided_request|done|].
  intros response name id ?. by left.
Qed.

Lemma provided_log_ret {A} m (a : A) pre (post : A -> string -> string -> Prop) :
  (∀ name id, post a name id -> pre name id) ->
  provided py_str client cfg (log m;; mret a : M Remote A) pre post.
Proof.
  intros Hsub. eapply provided_bind; [by apply (provided_log _ _ (fun _ => pre))|].
  intros ?. by apply provided_ret.
Qed.

Lemma add_contexts_entries its contexts contexts' name id :
  add_contexts its contexts = Some contexts' -> contexts' !! name = Some id ->
  contexts !! name = Some id
  ∨ ∃ item, item ∈ its ∧ get item "name" = Some name ∧ get item "id" = Some id.
Proof.
  revert contexts. induction its as [|item rest IH]; intros contexts; simpl.
  { intros [= <-] ?. by left. }
  destruct (get item "id") as [i|] eqn:Hid; [|done].
  destruct (get item "name") as [n|] eqn:Hname; [|done].
  intros Hadd Hlook. destruct (IH _ Hadd Hlook) as [Hin|(it & Hit & ? & ?)].
  - destruct (decide (n = name)) as [->|Hne].
    + rewrite lookup_insert_eq in Hin. injection Hin as ->.
      right. exists item. split; [by left|done].
    + rewrite lookup_insert_ne in Hin by done. by left.
  - right. exists it. split; [by right|done].
Qed.

Lemma provided_list_contexts_loop fuel contexts token :
  provided py_str client cfg
    (list_contexts_loop serve fuel client contexts token)
    (fun name id => contexts !! name = Some id)
    (fun res name id => ∃ d, res = Some d ∧ d !! name = Some id).
Proof.
  revert contexts token.
  induction fuel as [|fuel IH]; intros contexts token; simpl.
  { apply provided_out_of_fuel. }
  eapply provided_bind.
  { apply provided_request. intros known _. left. by eexists. }
  intros response.
  destruct response as [[[data|]|[|odd_fields]]|];
    try apply provided_raise;
    try (apply provided_log_ret; by intros name id (d & [= <-] & ?)).
  destruct (add_contexts _ _) as [contexts'|] eqn:Hadd;
    [|apply provided_log_ret; by intros name id (d & [= <-] & ?)].
  assert (Hknown : ∀ name id, contexts' !! name = Some id ->
            contexts !! name = Some id
            ∨ ∃ out, supplies client
                       (Http (mkRequest GET (base_url client)
                                (ContextList (client_org_id client)
                                   (truthy_opt token)) None) out) name id
                     ∧ out = Returned (Some data)).
  { intros name id Hlook.
    destruct (add_contexts_entries _ _ _ _ _ Hadd Hlook)
      as [?|(item & Hitem & Hname & Hid)]; [by left|].
    right. eexists. split; [|done]. left.
    by exists (truthy_opt token), data, item. }
  destruct (truthy_opt (get (fields data) "next_page_token")) as [tok|].
  - eapply provided_weaken; [apply (IH contexts' (Some tok))|exact Hknown|done].
  - apply provided_log_ret. intros name id (d & [= <-] & ?). by apply Hknown.
Qed.

Lemma provided_create_context name vars pre :
  (name, vars) ∈ cfg ->
  provided py_str client cfg (create_context serve client name) pre
    (fun res n i => pre n i ∨ (res = Some i ∧ n = name)).
Proof.
  intros Hcfg. unfold create_context.
  eapply provided_bind; [by apply (provided_log _ _ (fun _ => pre))|].
  intros ?. eapply provided_bind.
  { apply provided_request. intros known _. right. exists name, vars.
    split; [done|]. by left. }
  intros response.
  assert (Hid : ∀ out context_id n i,
            created_id out = Some context_id ->
            pre n i ∨ Some context_id = Some i ∧ n = name ->
            pre n i
            ∨ ∃ out', supplies client
                        (Http (mkRequest POST (base_url client) ContextCreate
                                 (Some (CreatePayload name (client_org_id client))))
                           out') n i
                      ∧ out' = out).
  { intros out cid n i Hout [?|[[= <-] ->]]; [by left|].
    right. exists out. split; [|done]. by right. }
  destruct response as [[[data|]|[|odd_fields]]|];
    try apply provided_raise.
  - destruct (truthy_opt _) as [cid|] eqn:Hcid.
    + apply provided_log_ret. intros n i Hpost.
      destruct (Hid (Returned (Some data)) cid n i Hcid Hpost)
        as [?|(out & Hs & ->)]; [by left|right; by eexists].
    + apply provided_log_ret. intros n i [?|[[=] _]]. by left.
  - apply provided_log_ret. intros n i [?|[[=] _]]. by left.
  - destruct (truthy_opt _) as [cid|] eqn:Hcid.
    + apply provided_log_ret. intros n i Hpost.
      destruct (Hid (ReturnedOdd (UnreadableItems odd_fields)) cid n i Hcid Hpost)
        as [?|(out & Hs & ->)]; [by left|right; by eexists].
    + apply provided_log_ret. intros n i [?|[[=] _]]. by left.
  - apply provided_ret. intros n i [?|[[=] _]]. by left.
Qed.

Lemma provided_list_environment_variables_loop fuel cname vars cid variables
    token pre :
  (cname, vars) ∈ cfg -> pre cname cid ->
  provided py_str client cfg
    (list_environment_variables_loop serve fuel client cid variables token)
    pre (fun _ => pre).
Proof.
  intros Hcfg Hcid. revert variables token.
  induction fuel as [|fuel IH]; intros variables token; simpl.
  { apply provided_out_of_fuel. }
  eapply provided_bind.
  { apply provided_request_plain. intros known Hpre. right. exists cname, vars.
    split; [done|]. right. exists cid. split; [by apply Hpre|]. left.
    by eexists. }
  intros response.
  destruct response as [[[data|]|[|odd_fields]]|];
    try apply provided_raise; try by apply provided_log_ret.
  destruct (add_variables _ _) as [variables'|]; [|by apply provided_log_ret].
  destruct (truthy_opt _) as [tok|]; [apply IH|by apply provided_ret].
Qed.

Lemma provided_process_variables cname all_vars cid names vars pre :
  (cname, all_vars) ∈ cfg -> pre cname cid ->
  (∀ item, item ∈ vars -> item ∈ all_vars) ->
  provided py_str client cfg
    (process_variables serve py_str client false cname cid names vars)
    pre (fun _ => pre).
Proof.
  intros Hcfg Hcid Hsub. induction vars as [|var_dict rest IH]; simpl.
  { by apply provided_ret. }
  eapply (provided_bind _ _ _ (fun _ => pre));
    [|intros ?; apply IH; intros item Hitem; apply Hsub; by right].
  destruct var_dict as [| | | | |[|[v x] [|]]];
    try (by apply (provided_log _ _ (fun _ => pre))).
  unfold create_or_update_environment_variable.
  eapply (provided_bind _ _ _ (fun _ => pre)).
  - eapply provided_bind.
    + apply provided_request_plain. intros known Hpre. right.
      exists cname, all_vars. split; [done|]. right. exists cid.
      split; [by apply Hpre|]. right. exists (v, x). split; [|done].
      apply var_entries_single, Hsub. by left.
    + intros [response|]; [by apply provided_ret|by apply provided_log_ret].
  - intros []; by apply (provided_log _ _ (fun _ => pre)).
Qed.

Lemma provided_process_context fuel existing cname vars :
  (cname, vars) ∈ cfg ->
  provided py_str client cfg
    (process_context serve py_str client false fuel existing cname vars)
    (fun name id => existing !! name = Some id)
    (fun existing' name id => existing' !! name = Some id).
Proof.
  intros Hcfg. unfold process_context, ensure_context.
  set (pre := fun name id => existing !! name = Some id).
  eapply (provided_bind _ _ _
            (fun found name id =>
               match found with
               | Some (cid, existing') =>
                   existing' !! name = Some id ∨ (name = cname ∧ id = cid)
               | None => pre name id
               end)).
  - eapply provided_bind; [by apply (provided_log _ _ (fun _ => pre))|].
    intros ?.
    destruct (truthy_opt (existing !! cname)) as [cid|] eqn:Hfound.
    { apply provided_log_ret. intros name id [?|[-> ->]]; [done|].
      by apply truthy_opt_Some in Hfound as [? _]. }
    eapply provided_bind; [by apply (provided_log _ _ (fun _ => pre))|].
    intros ?.
    eapply provided_bind; [by apply (provided_create_context _ vars)|].
    intros created. destruct (truthy_opt created) as [cid|] eqn:Hcreated.
    + apply truthy_opt_Some in Hcreated as [-> _].
      apply provided_ret. intros name id [Hlook|[-> ->]]; [|by right].
      destruct (decide (name = cname)) as [->|Hne].
      * rewrite lookup_insert_eq in Hlook. right. by injection Hlook as ->.
      * rewrite lookup_insert_ne in Hlook by done. by left.
    + apply provided_log_ret. intros name id ?. by left.
  - intros [[cid existing']|]; [|by apply provided_ret].
    set (mid := fun name id =>
                  existing' !! name = Some id ∨ (name = cname ∧ id = cid)).
    eapply provided_bind; [by apply (provided_log _ _ (fun _ => mid))|].
    intros ?.
    eapply (provided_bind _ _ _ (fun _ => mid)).
    + apply (provided_list_environment_variables_loop _ cname vars);
        [done|by right].
    + intros names.
      eapply (provided_bind _ _ _ (fun _ => mid)).
      * apply (provided_process_variables _ vars); [done|by right|done].
      * intros ?. apply provided_ret. intros name id ?. by left.
Qed.

Lemma provided_process_contexts fuel existing rest :
  (∀ g, g ∈ rest -> g ∈ cfg) ->
  provided py_str client cfg
    (process_contexts serve py_str client false fuel existing rest)
    (fun name id => existing !! name = Some id)
    (fun _ _ _ => False).
Proof.
  revert existing. induction rest as [|[cname vars] rest IH];
    intros existing Hsub; simpl.
  { by apply provided_ret. }
  eapply provided_bind.
  - apply provided_process_context. apply Hsub. by left.
  - intros existing'. apply IH. intros g Hg. apply Hsub. by right.
Qed.

End Backed.

Section BackedMain.

Context {Remote : Type}.
Variable serve : Remote -> Request -> outcome * Remote.
Variable py_str : yaml -> string.

#[local] Arguments process_contexts : simpl never.
#[local] Arguments list_contexts : simpl never.
#[local] Arguments fetch_existing : simpl never.

Lemma main_set_up_run args tok file fuel g gs lines r :
  truthy tok = true -> truthy (org_id args) = true -> dry_run args = false ->
  load_config_yaml file = (Some (g :: gs), lines) ->
  let client := mkClient CIRCLECI_API_BASE_URL (org_id args) tok in
  let rest :=
    (existing_contexts ← fetch_existing serve client false fuel (g :: gs);
     process_contexts serve py_str client false fuel existing_contexts (g :: gs);;
     log ScriptFinished) r in
  main serve py_str args (Some tok) file fuel r
  = (rest.1.1, rest.1.2, map Log lines ++ rest.2).
Proof.
  intros Htok Horg Hdry Hload client rest.
  unfold main, CircleCIClient_init. rewrite Hdry, Hload. simpl. rewrite Htok.
  rewrite run_bind. simpl. rewrite run_bind. simpl. rewrite run_bind. simpl.
  rewrite run_bind. simpl. rewrite Htok, Horg. rewrite run_bind. simpl.
  fold client. fold rest.
  by destruct rest as [[res r'] t].
Qed.


Lemma main_backed args api_token file fuel r req :
  req ∈ requests (main serve py_str args api_token file fuel r).2 ->
  ∃ token config_data,
    api_token = Some token
    ∧ (load_config_yaml file).1 = Some config_data
    ∧ backed_request py_str
        (mkClient CIRCLECI_API_BASE_URL (org_id args) token) config_data
        (supplied (mkClient CIRCLECI_API_BASE_URL (org_id args) token)
           (main serve py_str args api_token file fuel r).2) req.
Proof.
  intros Hin.
  destruct (setup_ok args api_token file) eqn:Hset.
  2: { destruct (main_not_set_up serve py_str args api_token file fuel r Hset)
         as (_ & _ & Hreq & _).
       rewrite Hreq in Hin. by apply elem_of_nil in Hin. }
  destruct (dry_run args) eqn:Hdry.
  { rewrite (main_dry_run serve py_str _ _ _ _ _ Hdry) in Hin.
    cbn [snd] in Hin. rewrite requests_logs in Hin.
    by apply elem_of_nil in Hin. }
  unfold setup_ok in Hset.
  destruct (truthy_opt api_token) as [tok|] eqn:Htok; [|done].
  apply truthy_opt_Some in Htok as [-> Htok].
  destruct (load_config_yaml file) as [[[|g gs]|] lines] eqn:Hload; try done.
  cbn [fst] in Hset.
  exists tok, (g :: gs). split; [done|]. split; [done|].
  rewrite (main_set_up_run args tok file fuel g gs lines r Htok Hset Hdry Hload)
    in Hin |- *.
  cbv zeta in Hin |- *. cbn [snd] in Hin |- *.
  rewrite requests_app, requests_logs in Hin. simpl in Hin.
  set (client := mkClient CIRCLECI_API_BASE_URL (org_id args) tok) in *.
  assert (Hrest : provided py_str client (g :: gs)
            (existing_contexts ← fetch_existing serve client false fuel (g :: gs);
             process_contexts serve py_str client false fuel existing_contexts
               (g :: gs);;
             log ScriptFinished)
            (fun _ _ => False) (fun _ _ _ => False)).
  { eapply (provided_bind _ _ _ _ _ _
              (fun existing name id => existing !! name = Some id)).
    - unfold fetch_existing, list_contexts.
      eapply provided_bind;
        [by apply (provided_log _ _ _ _ _ (fun _ _ _ => False))|]. intros ?.
      eapply provided_bind.
      + eapply provided_weaken; [apply provided_list_contexts_loop| |done].
        intros name id Hd. cbv beta in Hd. by rewrite lookup_empty in Hd.
      + intros [d|].
        * apply provided_ret. intros name id Hd. by exists d.
        * eapply provided_bind;
            [by apply (provided_log _ _ _ _ _ (fun _ _ _ => False))|].
          intros ?. apply provided_sys_exit.
    - intros existing. eapply provided_bind.
      + by apply (provided_process_contexts _ _ _ _ _ existing (g :: gs)).
      + intros ?. by apply provided_log. }
  destruct (Hrest (fun _ _ => False) r ltac:(done)) as [Hbacked _].
  eapply backed_request_mono; [|exact (backed_requests _ _ _ _ _ _ Hbacked Hin)].
  intros name id [[]|Hs]. apply supplied_app. by right.
Qed.

End BackedMain.

(** X6. Whatever the remote does, every request of a run is made by the
    client of this run - the fixed base URL, the organisation id of the
    command line - and is either a page of the listing of the groups or
    about a group of the loaded document: the creation of that group,
    or, under an id that the remote itself has given for that group in
    this run - in an item of a page of the listing of the groups or in
    its answer to the creation of the group - a page of the listing of
    its variables or the upsert of one of the variables the document
    gives for it, with the document's value: text as it is, anything
    else through [str].  No group and no variable that the document
    does not name is ever written, and a run without a token or a
    loaded document sends nothing. *)
Theorem main_requests_are_desired
    (Remote : Type) (serve : Remote -> Request -> outcome * Remote)
    (py_str : yaml -> string) args api_token file fuel r req :
  req ∈ requests (main serve py_str args api_token file fuel r).2 ->
  ∃ token config_data,
    api_token = Some token
    ∧ (load_config_yaml file).1 = Some config_data
    ∧ let client := mkClient CIRCLECI_API_BASE_URL (org_id args) token in
      req_base req = CIRCLECI_API_BASE_URL
      ∧ ((∃ page_token, req = list_request client page_token)
         ∨ (∃ context_name variables_list,
              (context_name, variables_list) ∈ config_data
              ∧ (req = create_request client context_name
                 ∨ (∃ context_id,
                      supplied client
                        (main serve py_str args api_token file fuel r).2
                        context_name context_id
                      ∧ ((∃ page_token,
                            req = vars_request client context_id page_token)
                         ∨ (∃ var_name var_value,
                              (var_name, var_value) ∈ var_entries variables_list
                              ∧ req = mkRequest PUT CIRCLECI_API_BASE_URL
                                        (EnvVar context_id var_name)
                                        (Some (ValuePayload
                                                 match var_value with
                                                 | YStr s => s
                                                 | v => py_str v
                                                 end)))))))).
Proof.
  intros Hin.
  destruct (main_backed serve py_str args api_token file fuel r req Hin)
    as (token & cfg & Htok & Hload & Hreq).
  exists token, cfg. split; [done|]. split; [done|]. cbv zeta.
  destruct Hreq as [[page_token ->]|(cname & vars & Hcfg & [->|Hreq])].
  { split; [done|]. left. by exists page_token. }
  { split; [done|]. right. exists cname, vars. split; [done|]. by left. }
  destruct Hreq as (cid & Hcid & [[page_token ->]|([v x] & Hvar & ->)]);
    (split; [done|]); right; exists cname, vars; (split; [done|]); right;
    exists cid; (split; [done|]).
  - left. by exists page_token.
  - right. by exists v, x.
Qed.

Lemma main_requests_are_desired_witness :
  let args := mkArgs "contexts.yml" "org" false in
  let file := Parsed (YMap [("g", YSeq [YMap [("A", YInt 1)]])]) in
  let client := mkClient CIRCLECI_API_BASE_URL "org" "token" in
  let answers :=
    [Returned (Some (mkBody [] (Some [[("id", "c1"); ("name", "g")]])));
     Returned (Some (mkBody [] (Some [])));
     Returned (Some (mkBody [] None))] in
  let run := main serve_script (fun _ => "1") args (Some "token") file 2
               answers in
  let req := put_request (fun _ => "1") client "c1" ("A", YInt 1) in
  req ∈ requests run.2 ∧ supplied client run.2 "g" "c1".
Proof.
  intros args file client answers run req.
  assert (Hin : req ∈ requests run.2).
  { vm_compute. do 2 apply list_elem_of_further. apply list_elem_of_here. }
  split; [exact Hin|].
  destruct (main_requests_are_desired Script serve_script (fun _ => "1") args
              (Some "token") file 2 answers req Hin)
    as (token & cfg & [= <-] & [= <-] & _ & Hreq).
  destruct Hreq as [[page_token [=]]|(cname & vars & Hcfg & Hreq)].
  apply list_elem_of_singleton in Hcfg as [= -> ->].
  destruct Hreq as [[=]|(cid & Hcid & [[page_token [=]]|(v & x & _ & [= <- _ _])])].
  exact Hcid.
Defined.

(** X7. The loop over a group's list skips an item that is no
    single-pair mapping, with a warning; in a run that line is never
    written, in either mode, because the loader has turned down every
    document with such an item before the loop is reached. *)
Theorem main_never_skips_an_entry
    (Remote : Type) (serve : Remote -> Request -> outcome * Remote)
    (py_str : yaml -> string) :
  (∀ args api_token file fuel r context_name,
      Log (SkippingInvalidEntry context_name)
      ∉ (main serve py_str args api_token file fuel r).2)
  ∧ (∀ client dry context_name context_id names item rest r,
       is_single_pair item = false ->
       ∃ t, (process_variables serve py_str client dry context_name context_id
               names (item :: rest) r).2
            = Log (SkippingInvalidEntry context_name) :: t).
Proof.
  split.
  - intros args api_token file fuel r context_name Hin.
    destruct (main_run_events serve py_str args api_token file fuel r)
      as [Hall _].
    rewrite Forall_forall in Hall. by apply (Hall _ Hin context_name).
  - intros client dry cname cid names item rest r Hitem.
    cbn [process_variables]. rewrite run_bind.
    destruct item as [| | | | |[|[v x] [|]]]; try done; simpl;
      destruct (process_variables _ _ _ _ _ _ _ _ _) as [[res r2] t2];
      by eexists.
Qed.

Lemma main_never_skips_an_entry_witness :
  ∃ t, (process_variables serve_script (fun _ => "") 
          (mkClient CIRCLECI_API_BASE_URL "org" "token") false "g" "c1" ∅
          [YStr "A=x"; YMap [("B", YStr "y")]] []).2
       = Log (SkippingInvalidEntry "g") :: t.
Proof.
  apply (proj2 (main_never_skips_an_entry Script serve_script (fun _ => ""))).
  reflexivity.
Defined.

(** X8. The loop over the desired state starts from a snapshot of the
    groups that exist and trusts it: it asks for the creation of a group
    only when the snapshot has no usable id for it, and every request
    about a group the snapshot holds - the listing of its variables and
    their upserts - goes to the id the snapshot gives, whatever the
    remote answers in between. *)
Theorem process_contexts_respects_snapshot
    (Remote : Type) (serve : Remote -> Request -> outcome * Remote)
    (py_str : yaml -> string) client dry fuel existing config_data r req :
  req ∈ requests (process_contexts serve py_str client dry fuel existing
                    config_data r).2 ->
  dry = false
  ∧ desired_request py_str client config_data existing req
  ∧ (∀ context_name, req = create_request client context_name ->
       context_name ∈ config_data.*1
       ∧ truthy_opt (existing !! context_name) = None)
  ∧ (∀ context_id var_name value,
       req = mkRequest PUT (base_url client) (EnvVar context_id var_name)
               (Some (ValuePayload value)) ->
       ∃ context_name variables_list var_value,
         (context_name, variables_list) ∈ config_data
         ∧ (var_name, var_value) ∈ var_entries variables_list
         ∧ value = coerce py_str var_value
         ∧ ∀ id, truthy_opt (existing !! context_name) = Some id ->
                 context_id = id).
Proof.
  intros Hin. split.
  { destruct dry; [|done]. rewrite process_contexts_dry in Hin.
    simpl in Hin. rewrite requests_logs in Hin. by apply elem_of_nil in Hin. }
  apply elem_of_requests in Hin as (out & Hin).
  destruct (process_contexts_desired serve py_str client dry fuel existing
              existing config_data config_data (fun _ => True)
              ltac:(done) (extends_refl existing) r) as [Hall _].
  rewrite Forall_forall in Hall. pose proof (Hall _ Hin) as Hreq.
  simpl in Hreq. split; [done|].
  destruct Hreq as (cname & vars & cid & Hcfg & Hid & Hreq). split.
  - intros name ->.
    destruct Hreq as [[[= <-] Hnew]|[[tok [=]]|(var & _ & [=])]].
    split; [|done]. apply list_elem_of_fmap. by exists (name, vars).
  - intros context_id var_name value ->.
    destruct Hreq as [[[=] _]|[[tok [=]]|([v x] & Hvar & [= -> -> ->])]].
    by exists cname, vars, x.
Qed.

Lemma process_contexts_respects_snapshot_witness :
  let client := mkClient CIRCLECI_API_BASE_URL "org" "token" in
  let cfg := [("g", [YMap [("A", YStr "x")]]); ("h", [YMap [("B", YStr "y")]])] in
  let answers :=
    [Returned (Some (mkBody [] (Some [])));
     Returned (Some (mkBody [] None));
     Returned (Some (mkBody [("id", "c2")] None))] in
  let run := process_contexts serve_script (fun _ => "") client false 2
               {["g" := "c1"]} cfg answers in
  create_request client "h" ∈ requests run.2
  ∧ truthy_opt (({["g" := "c1"]} : gmap string string) !! "h") = None.
Proof.
  intros client cfg answers run.
  assert (Hin : create_request client "h" ∈ requests run.2).
  { vm_compute. do 2 apply list_elem_of_further. apply list_elem_of_here. }
  split; [exact Hin|].
  destruct (process_contexts_respects_snapshot Script serve_script (fun _ => "")
              client false 2 {["g" := "c1"]} cfg answers _ Hin)
    as (_ & _ & Hnew & _).
  by destruct (Hnew "h" eq_refl).
Defined.

(** ** The made-up snapshot of a dry run *)

Lemma foldl_insert_names (F : string -> string) (l : list string)
    (d : gmap string string) n :
  foldl (fun d name => <[name := F name]> d) d l !! n
  = if decide (n ∈ l) then Some (F n) else d !! n.
Proof.
  revert d. induction l as [|a l IH]; intros d; simpl.
  { destruct (decide (n ∈ [])) as [Hin|Hin]; [by apply elem_of_nil in Hin|done]. }
  rewrite IH. destruct (decide (n ∈ l)) as [Hl|Hl].
  { rewrite decide_True; [done|apply elem_of_cons; by right]. }
  destruct (decide (n = a)) as [->|Hna].
  - rewrite lookup_insert_eq. rewrite decide_True; [done|apply elem_of_cons; by left].
  - rewrite lookup_insert_ne; [|done]. rewrite decide_False; [done|].
    by intros [?|?]%elem_of_cons.
Qed.

Lemma simulated_contexts_lookup cfg g :
  g ∈ cfg.*1 ->
  truthy_opt (simulated_contexts cfg !! g) = Some ("dry-run-id-" +:+ g).
Proof.
  intros Hg. unfold simulated_contexts.
  rewrite (foldl_insert_names (fun name => "dry-run-id-" +:+ name)).
  by rewrite decide_True.
Qed.

Local Ltac fixed_lines Hm :=
  repeat split; intros; try (intros ->); try (destruct_or!; subst); in_lines Hm.

Lemma dry_run_report_groups args api_token file m :
  m ∈ (dry_run_report args api_token file).2 ->
  (∀ g, m ≠ ContextNotFound g) ∧ (∀ g, m ≠ DryRunWouldCreate g)
  ∧ (∀ g cid, m = ContextExists g cid ∨ m = ProcessingVariables g cid ->
              cid = "dry-run-id-" +:+ g).
Proof.
  assert (Hloader : m ∈ (load_config_yaml file).2 ->
    (∀ g, m ≠ ContextNotFound g) ∧ (∀ g, m ≠ DryRunWouldCreate g)
    ∧ (∀ g cid, m = ContextExists g cid ∨ m = ProcessingVariables g cid ->
                cid = "dry-run-id-" +:+ g)).
  { intros [Hm|(g & [-> | ->])]%load_lines_kinds.
    - fixed_lines Hm.
    - repeat split; try done; by intros ? ? [|].
    - repeat split; try done; by intros ? ? [|]. }
  unfold dry_run_report.
  destruct (truthy_opt api_token) as [token|]; [|by intros ?%elem_of_nil].
  destruct (load_config_yaml file) as [[[|g0 gs]|] lines] eqn:Hload;
    simpl in Hloader; try (by apply Hloader).
  destruct (CircleCIClient_init token (org_id args)) as [e|client];
    cbv beta iota delta [snd]; rewrite !elem_of_app.
  - intros [Hm|Hm]; [by apply Hloader|]. fixed_lines Hm.
  - intros [Hm|[Hm|[Hm|Hm]]]; [by apply Hloader| | |].
    + fixed_lines Hm.
    + apply list_elem_of_In, in_flat_map in Hm as ([g vs] & Hg & Hm).
      apply list_elem_of_In in Hm, Hg. unfold dry_group_lines in Hm.
      rewrite simulated_contexts_lookup in Hm
        by (apply list_elem_of_fmap; by exists (g, vs)).
      apply elem_of_app in Hm as [Hm|Hm].
      * simpl in Hm. fixed_lines Hm; congruence.
      * apply list_elem_of_fmap in Hm as (item & -> & _).
        destruct item as [| | | | |[|[v x] [|]]];
          (repeat split; try done; by intros ? ? [|]).
    + fixed_lines Hm.
Qed.

(** X9. A dry run does not look at the remote, so it cannot tell which
    groups are missing: it makes up an id for every group of the
    document and then finds each of them.  Whatever the remote holds, a
    dry run reports every group of the document as existing under its
    made-up id, and never writes that a group was not found or would be
    created. *)
Theorem dry_run_finds_every_context
    (Remote : Type) (serve : Remote -> Request -> outcome * Remote)
    (py_str : yaml -> string) args api_token file fuel r :
  dry_run args = true ->
  let run := main serve py_str args api_token file fuel r in
  (∀ g, (Log (ContextNotFound g) ∉ run.2) ∧ (Log (DryRunWouldCreate g) ∉ run.2))
  ∧ (∀ g cid, Log (ContextExists g cid) ∈ run.2
              ∨ Log (ProcessingVariables g cid) ∈ run.2 ->
              cid = "dry-run-id-" +:+ g)
  ∧ (setup_ok args api_token file = true ->
     ∀ cfg g, (load_config_yaml file).1 = Some cfg -> g ∈ cfg.*1 ->
       Log (ContextExists g ("dry-run-id-" +:+ g)) ∈ run.2).
Proof.
  intros Hdry. cbv zeta. rewrite (main_dry_run serve py_str _ _ _ _ _ Hdry).
  cbn [fst snd].
  assert (Hlog : ∀ m, Log m ∈ map Log (dry_run_report args api_token file).2 ->
                      m ∈ (dry_run_report args api_token file).2).
  { by intros m (m' & [= <-] & Hm)%list_elem_of_fmap. }
  split; [|split].
  - intros g. split; intros Hm%Hlog%dry_run_report_groups.
    + by apply (proj1 Hm g).
    + by apply (proj1 (proj2 Hm) g).
  - intros g cid [Hm%Hlog%dry_run_report_groups|Hm%Hlog%dry_run_report_groups].
    + apply (proj2 (proj2 Hm)). by left.
    + apply (proj2 (proj2 Hm)). by right.
  - unfold setup_ok. intros Hok cfg g Hload Hg.
    destruct (truthy_opt api_token) as [token|] eqn:Htok; [|done].
    destruct (load_config_yaml file) as [loaded lines] eqn:Hfile.
    simpl in Hload, Hok. subst loaded.
    destruct cfg as [|g0 gs]; [done|].
    apply list_elem_of_fmap in Hg as ([g' vs] & -> & Hg).
    apply list_elem_of_fmap_2.
    apply (dry_run_report_lines args api_token file (g0 :: gs) lines (g', vs));
      [by rewrite Htok|done|done|done|].
    unfold dry_group_lines.
    rewrite simulated_contexts_lookup
      by (apply list_elem_of_fmap; by exists (g', vs)).
    apply elem_of_app. left. simpl. right. by left.
Qed.

Lemma dry_run_finds_every_context_witness :
  let args := mkArgs "contexts.yml" "org" true in
  let file := Parsed (YMap [("g", YSeq [YMap [("A", YStr "x")]])]) in
  let run := main serve_directory (fun _ => "") args (Some "token") file 1 [] in
  Log (ContextExists "g" "dry-run-id-g") ∈ run.2
  ∧ Log (DryRunWouldCreate "g") ∉ run.2.
Proof.
  intros args file run.
  destruct (dry_run_finds_every_context Directory serve_directory (fun _ => "")
              args (Some "token") file 1 [] eq_refl) as (Hno & _ & Hyes).
  split.
  - apply (Hyes eq_refl [("g", [YMap [("A", YStr "x")]])] "g" eq_refl).
    by left.
  - apply (Hno "g").
Defined.

(** ** The pages of a variable listing *)

Lemma add_variables_keys its (s : gset string) :
  forallb (has_keys ["variable"]) its = true ->
  add_variables its s
  = Some (list_to_set (omap (fun item => get item "variable") its) ∪ s).
Proof.
  revert s. induction its as [|item rest IH]; intros s; simpl.
  { by rewrite (left_id_L ∅ (∪)). }
  unfold has_keys at 1. simpl.
  destruct (get item "variable") as [v|]; simpl; [|done].
  intros Hrest. rewrite IH by done. f_equal. simpl.
  by rewrite (assoc_L (∪)), (comm_L (∪) (list_to_set _) {[v]}).
Qed.

Lemma append_assoc (a b c : string) : (a +:+ b) +:+ c = a +:+ b +:+ c.
Proof.
  induction a as [|x a IH]; [done|].
  change (String x ((a +:+ b) +:+ c) = String x (a +:+ b +:+ c)).
  by rewrite IH.
Qed.

Lemma chained_cons data more :
  chained (data :: more) ->
  (more = [] ∧ next_token data = None)
  ∨ (∃ tok, next_token data = Some tok ∧ chained more).
Proof.
  destruct more as [|data' more]; [by left|].
  intros [[tok Htok] Hmore]. right. by exists tok.
Qed.

Lemma log_lines_cons_http req out t : log_lines (Http req out :: t) = log_lines t.
Proof. done. Qed.

Lemma list_environment_variables_loop_pages fuel self cid variables token
    bodies (rest : Script) :
  chained bodies ->
  Forall (fun data => forallb (has_keys ["variable"]) (default [] (items data)) = true)
         bodies ->
  (length bodies ≤ fuel)%nat ->
  let run := list_environment_variables_loop serve_script fuel self cid
               variables token
               (map (fun data => Returned (Some data)) bodies ++ rest) in
  run.1.1 = Ret (list_to_set (concat (map body_names bodies)) ∪ variables)
  ∧ run.1.2 = rest
  ∧ requests run.2 = vars_requests self cid (truthy_opt token) bodies
  ∧ log_lines run.2 = [].
Proof.
  revert fuel variables token.
  induction bodies as [|data more IH];
    intros fuel variables token Hchain Hkeys Hfuel; [done|].
  destruct fuel as [|fuel]; [simpl in Hfuel; lia|].
  apply Forall_cons in Hkeys as [Hdata Hmore].
  cbv zeta. rewrite list_environment_variables_loop_step.
  cbn [map app serve_script]. cbv zeta.
  rewrite (add_variables_keys _ _ Hdata).
  cbn [map concat vars_requests]. rewrite list_to_set_app_L.
  fold (body_names data). fold (next_token data).
  destruct (chained_cons _ _ Hchain) as [[-> Hlast]|(tok & Htok & Hchain')].
  - rewrite Hlast. simpl. by rewrite (right_id_L ∅ (∪)).
  - rewrite Htok.
    destruct (IH fuel (list_to_set (body_names data) ∪ variables) (Some tok)
                Hchain' Hmore) as (Hres & Hrem & Hreq & Hlog).
    { simpl in Hfuel. lia. }
    cbn [fst snd]. rewrite requests_cons_http, log_lines_cons_http.
    split; [|split; [exact Hrem|split; [|exact Hlog]]].
    + rewrite Hres. f_equal.
      by rewrite (assoc_L (∪)), (comm_L (∪) (list_to_set (concat _))).
    + rewrite Hreq. do 2 f_equal.
      unfold next_token in Htok. apply truthy_opt_Some in Htok as [_ Htok].
      simpl. by rewrite Htok.
Qed.

(** X10. The listing of a group's variables follows the page tokens to
    the end: against pages of which every one but the last hands on a
    token, and whose items all carry a variable name, it sends one
    request per page - the first without a token, each later one with
    the token of the page before it, appended as [?page-token=] - and
    returns the names of all pages together, writing no line.  A page
    without an [items] field counts as an empty one. *)
Theorem list_environment_variables_traverses_all_pages
    (self : CircleCIClient) (context_id : string) (bodies : list json_body)
    (rest : Script) (fuel : nat) :
  chained bodies ->
  Forall (fun data => forallb (has_keys ["variable"]) (default [] (items data)) = true)
         bodies ->
  (length bodies ≤ fuel)%nat ->
  let run := list_environment_variables serve_script fuel self context_id
               (map (fun data => Returned (Some data)) bodies ++ rest) in
  run.1.1 = Ret (list_to_set (concat (map body_names bodies)))
  ∧ run.1.2 = rest
  ∧ requests run.2 = vars_requests self context_id None bodies
  ∧ length (requests run.2) = length bodies
  ∧ log_lines run.2 = []
  ∧ (∀ v, v ∈ (list_to_set (concat (map body_names bodies)) : gset string)
          ↔ ∃ data, data ∈ bodies ∧ v ∈ body_names data)
  ∧ (∀ tok, req_url (vars_request self context_id (Some tok))
            = base_url self +:+ "/context/" +:+ context_id
              +:+ "/environment-variable?page-token=" +:+ tok).
Proof.
  intros Hchain Hkeys Hfuel.
  destruct (list_environment_variables_loop_pages fuel self context_id ∅ None
              bodies rest Hchain Hkeys Hfuel) as (Hres & Hrem & Hreq & Hlog).
  cbv zeta. unfold list_environment_variables.
  rewrite Hres, Hrem, Hreq, Hlog, (right_id_L ∅ (∪)).
  do 3 (split; [done|]). split; [|split; [done|split]].
  - clear. generalize (truthy_opt None).
    induction bodies as [|data more IH]; intros token; simpl; [done|].
    by rewrite IH.
  - intros v. rewrite elem_of_list_to_set, list_elem_of_In, in_concat. split.
    + intros (l & (data & <- & Hdata)%in_map_iff & Hv).
      exists data. by rewrite !list_elem_of_In.
    + intros (data & Hdata & Hv). exists (body_names data).
      rewrite <- !list_elem_of_In. split; [|done].
      by apply (list_elem_of_fmap_2 body_names).
  - intros tok. unfold req_url, vars_request. simpl.
    rewrite !append_assoc. reflexivity.
Qed.

Lemma list_environment_variables_traverses_all_pages_witness :
  let self := mkClient CIRCLECI_API_BASE_URL "org" "token" in
  let bodies :=
    [mkBody [("next_page_token", "t1")]
       (Some [[("variable", "A"); ("context_id", "c1")]; [("variable", "B")]]);
     mkBody [("next_page_token", "")] None] in
  let run := list_environment_variables serve_script 2 self "c1"
               (map (fun data => Returned (Some data)) bodies ++ []) in
  run.1.1 = Ret (list_to_set ["A"; "B"])
  ∧ requests run.2
    = [vars_request self "c1" None; vars_request self "c1" (Some "t1")].
Proof.
  intros self bodies run.
  destruct (list_environment_variables_traverses_all_pages self "c1"
              bodies [] 2) as (Hres & _ & Hreq & _).
  - split; [by eexists|done].
  - by repeat constructor.
  - simpl. lia.
  - split; [exact Hres|exact Hreq].
Defined.

(** ** Runs that end, listings that do not *)

Lemma ends_ret fuel {A} (a : A) : ends_within fuel (mret a : M Script A).
Proof. by intros s _. Qed.

Lemma ends_log fuel m : ends_within fuel (log m : M Script unit).
Proof. by intros s _. Qed.

Lemma ends_sys_exit fuel {A} code : ends_within fuel (sys_exit code : M Script A).
Proof. by intros s _. Qed.

Lemma ends_raise fuel {A} e : ends_within fuel (raise e : M Script A).
Proof. by intros s _. Qed.

Lemma ends_bind fuel {A B} (m : M Script A) (f : A -> M Script B) :
  ends_within fuel m -> (∀ a, ends_within fuel (f a)) ->
  ends_within fuel (m ≫= f).
Proof.
  intros Hm Hf s Hs. rewrite run_bind.
  destruct (Hm s Hs) as [Hres Hlen].
  destruct (m s) as [[[a|code| |e] s1] t1]; simpl in *; try done.
  destruct (Hf a s1) as [Hres' Hlen']; [lia|].
  destruct (f a s1) as [[res s2] t2]; simpl in *. split; [done|lia].
Qed.

Lemma ends_request fuel self method endpoint json :
  ends_within fuel (_request serve_script self method endpoint json).
Proof.
  intros s _. rewrite _request_run. simpl.
  destruct s as [|[status|resp|code|body] rest]; simpl; split; try done; lia.
Qed.

Lemma ends_list_contexts_loop fuel self contexts token :
  ends_within fuel (list_contexts_loop serve_script fuel self contexts token).
Proof.
  revert contexts token.
  induction fuel as [|fuel IH]; intros contexts token s Hs; [lia|].
  rewrite list_contexts_loop_step. simpl.
  destruct s as [|[status|[data|]|code|[|odd_fields]] rest]; simpl;
    try (split; [done|lia]).
  destruct (add_contexts _ _) as [contexts'|]; simpl; try (split; [done|lia]).
  destruct (truthy_opt _) as [tok|]; simpl; try (split; [done|lia]).
  simpl in Hs. destruct (IH contexts' (Some tok) rest) as [Hres Hlen]; [lia|].
  split; [done|lia].
Qed.

Lemma ends_list_environment_variables_loop fuel self cid variables token :
  ends_within fuel
    (list_environment_variables_loop serve_script fuel self cid variables token).
Proof.
  revert variables token.
  induction fuel as [|fuel IH]; intros variables token s Hs; [lia|].
  rewrite list_environment_variables_loop_step. simpl.
  destruct s as [|[status|[data|]|code|[|odd_fields]] rest]; simpl;
    try (split; [done|lia]).
  destruct (add_variables _ _) as [variables'|]; simpl; try (split; [done|lia]).
  destruct (truthy_opt _) as [tok|]; simpl; try (split; [done|lia]).
  simpl in Hs. destruct (IH variables' (Some tok) rest) as [Hres Hlen]; [lia|].
  split; [done|lia].
Qed.

Lemma ends_weaken fuel fuel' {A} (m : M Script A) :
  (fuel' ≤ fuel)%nat -> ends_within fuel m -> ends_within fuel' m.
Proof. intros Hle Hm s Hs. apply Hm. lia. Qed.

Ltac ends_step :=
  lazymatch goal with
  | |- ends_within _ (mret _) => apply ends_ret
  | |- ends_within _ (log _) => apply ends_log
  | |- ends_within _ (sys_exit _) => apply ends_sys_exit
  | |- ends_within _ (raise _) => apply ends_raise
  | |- ends_within _ (_request _ _ _ _ _) => apply ends_request
  | |- ends_within _ (_ ≫= _) => apply ends_bind; [|intros ?]
  | |- ends_within _ (match ?x with _ => _ end) => destruct x
  | |- ends_within _ (if ?x then _ else _) => destruct x
  end.

Section Ends.

Variable py_str : yaml -> string.

#[local] Arguments list_contexts_loop : simpl never.
#[local] Arguments list_environment_variables_loop : simpl never.

Lemma ends_process_variables fuel client dry cname cid names vars :
  ends_within fuel
    (process_variables serve_script py_str client dry cname cid names vars).
Proof.
  induction vars as [|var_dict rest IH]; simpl; [apply ends_ret|].
  apply ends_bind; [|by intros].
  unfold create_or_update_environment_variable.
  destruct var_dict as [| | | | |[|[v x] [|]]]; repeat ends_step.
Qed.

Lemma ends_process_contexts fuel client dry existing cfg :
  ends_within fuel
    (process_contexts serve_script py_str client dry fuel existing cfg).
Proof.
  revert existing. induction cfg as [|[cname vars] rest IH]; intros existing;
    simpl; [apply ends_ret|].
  apply ends_bind; [|by intros].
  unfold process_context, ensure_context, create_context,
    list_environment_variables.
  apply ends_bind.
  { repeat ends_step. }
  intros [[cid existing']|]; [|apply ends_ret].
  apply ends_bind; [apply ends_log|]. intros _.
  apply ends_bind.
  { destruct dry; [apply ends_ret|apply ends_list_environment_variables_loop]. }
  intros names. apply ends_bind; [apply ends_process_variables|].
  intros; apply ends_ret.
Qed.

Lemma ends_main args api_token file fuel :
  ends_within fuel (main serve_script py_str args api_token file fuel).
Proof.
  unfold main.
  apply ends_bind; [repeat ends_step|]. intros tok.
  apply ends_bind.
  { destruct (load_config_yaml file) as [loaded lines]. by intros s _. }
  intros loaded. apply ends_bind; [repeat ends_step|]. intros cfg.
  apply ends_bind; [repeat ends_step|]. intros _.
  apply ends_bind; [repeat ends_step|]. intros client.
  apply ends_bind.
  { unfold fetch_existing, list_contexts.
    apply ends_bind; [apply ends_log|]. intros _.
    destruct (dry_run args); [repeat ends_step|].
    apply ends_bind; [apply ends_list_contexts_loop|]. intros d.
    repeat ends_step. }
  intros existing.
  apply ends_bind; [apply ends_process_contexts|]. intros; apply ends_log.
Qed.

End Ends.

(** X11. A run comes to an end as soon as the remote stops handing out
    page tokens.  Against a remote that has finitely many answers ready
    and then lets no request through, a run whose listing loops are
    given more turns than there are answers does not use them up: it
    returns, with status 0, or exits with status 1. *)
Theorem main_ends_on_script
    (py_str : yaml -> string) args api_token file fuel (answers : Script) :
  (length answers < fuel)%nat ->
  let run := main serve_script py_str args api_token file fuel answers in
  (exit_status run.1.1 = Some 0%Z ∨ exit_status run.1.1 = Some 1%Z)
  ∧ (length run.1.2 ≤ length answers)%nat.
Proof.
  intros Hlen. destruct (ends_main py_str args api_token file fuel answers Hlen)
    as [Hres Hrest].
  split; [|done].
  destruct (main_always serve_script py_str args api_token file fuel answers)
    as [_ Hexit].
  destruct ((main serve_script py_str args api_token file fuel answers).1.1)
    as [[]|code| |e]; [by left|right; simpl in *; by subst|done|by right].
Qed.

Lemma main_ends_on_script_witness :
  let args := mkArgs "contexts.yml" "org" false in
  let file := Parsed (YMap [("g", YSeq [YMap [("A", YStr "x")]])]) in
  let answers :=
    [Returned (Some (mkBody [("next_page_token", "t")] (Some [])));
     Returned (Some (mkBody [("next_page_token", "t")] (Some [])))] in
  let run := main serve_script (fun _ => "") args (Some "token") file 3 answers in
  exit_status run.1.1 = Some 0%Z ∨ exit_status run.1.1 = Some 1%Z.
Proof.
  intros args file answers run.
  apply (main_ends_on_script (fun _ => "") args (Some "token") file 3 answers).
  simpl. lia.
Defined.

Lemma add_contexts_keys its contexts :
  forallb (has_keys ["id"; "name"]) its = true ->
  is_Some (add_contexts its contexts).
Proof.
  revert contexts. induction its as [|item rest IH]; intros contexts; simpl.
  { by eexists. }
  unfold has_keys at 1. simpl.
  destruct (get item "id") as [i|]; simpl; [|done].
  destruct (get item "name") as [n|]; simpl; [|done].
  intros Hrest. by apply IH.
Qed.

Section Endless.

Context {Remote : Type}.
Variable serve : Remote -> Request -> outcome * Remote.
Variable I : Remote -> Prop.

Lemma list_contexts_loop_endless fuel self contexts token r :
  always_more serve ["id"; "name"] I -> I r ->
  let run := list_contexts_loop serve fuel self contexts token r in
  run.1.1 = OutOfFuel ∧ length (requests run.2) = fuel ∧ log_lines run.2 = [].
Proof.
  intros Hmore. revert contexts token r.
  induction fuel as [|fuel IH]; intros contexts token r Hr; [done|].
  cbv zeta. rewrite list_contexts_loop_step. cbv zeta.
  destruct (Hmore r (list_request self (truthy_opt token)) Hr)
    as (data & r' & -> & Hr' & Hkeys & tok & Htok).
  destruct (add_contexts_keys _ contexts Hkeys) as [contexts' ->].
  unfold next_token in Htok. rewrite Htok.
  destruct (IH contexts' (Some tok) r' Hr') as (Hres & Hreq & Hlog).
  cbn [fst snd]. rewrite requests_cons_http, log_lines_cons_http.
  split; [done|]. split; [|done]. simpl. by rewrite Hreq.
Qed.

Lemma list_environment_variables_loop_endless fuel self cid variables token r :
  always_more serve ["variable"] I -> I r ->
  let run := list_environment_variables_loop serve fuel self cid variables
               token r in
  run.1.1 = OutOfFuel ∧ length (requests run.2) = fuel ∧ log_lines run.2 = [].
Proof.
  intros Hmore. revert variables token r.
  induction fuel as [|fuel IH]; intros variables token r Hr; [done|].
  cbv zeta. rewrite list_environment_variables_loop_step. cbv zeta.
  destruct (Hmore r (vars_request self cid (truthy_opt token)) Hr)
    as (data & r' & -> & Hr' & Hkeys & tok & Htok).
  rewrite (add_variables_keys _ _ Hkeys).
  unfold next_token in Htok. rewrite Htok.
  destruct (IH (list_to_set (omap (fun item => get item "variable")
                                 (default [] (items data))) ∪ variables)
              (Some tok) r' Hr') as (Hres & Hreq & Hlog).
  cbn [fst snd]. rewrite requests_cons_http, log_lines_cons_http.
  split; [done|]. split; [|done]. simpl. by rewrite Hreq.
Qed.

End Endless.

(** X12. Nothing bounds the number of pages of a listing.  While the
    remote keeps answering with well-formed pages that hand on a token -
    the same one each time will do - both listings keep asking: after
    any number of turns the loop has sent that many requests, has
    written nothing and has not returned. *)
Theorem listings_follow_tokens_without_bound
    (Remote : Type) (serve : Remote -> Request -> outcome * Remote)
    (I : Remote -> Prop) (self : CircleCIClient) (r : Remote) :
  I r ->
  (always_more serve ["id"; "name"] I ->
   ∀ fuel,
     let run := list_contexts serve fuel self r in
     run.1.1 = OutOfFuel ∧ length (requests run.2) = fuel ∧ log_lines run.2 = [])
  ∧ (always_more serve ["variable"] I ->
     ∀ fuel context_id,
       let run := list_environment_variables serve fuel self context_id r in
       run.1.1 = OutOfFuel ∧ length (requests run.2) = fuel
       ∧ log_lines run.2 = []).
Proof.
  intros Hr. split.
  - intros Hmore fuel. by apply (list_contexts_loop_endless serve I).
  - intros Hmore fuel cid.
    by apply (list_environment_variables_loop_endless serve I).
Qed.

Lemma listings_follow_tokens_without_bound_witness :
  let serve := fun (_ : unit) (_ : Request) =>
    (Returned (Some (mkBody [("next_page_token", "t")] None)), tt) in
  let self := mkClient CIRCLECI_API_BASE_URL "org" "token" in
  (list_contexts serve 5 self tt).1.1 = OutOfFuel
  ∧ length (requests (list_contexts serve 5 self tt).2) = 5.
Proof.
  intros serve self.
  destruct (listings_follow_tokens_without_bound unit serve (fun _ => True)
              self tt I) as [Hlist _].
  destruct (Hlist ltac:(intros r req _;
                        exists (mkBody [("next_page_token", "t")] None), tt;
                        repeat split; by eexists) 5) as (Hres & Hreq & _).
  by split.
Defined.

(** ** The answer to a creation *)

(** X13. The creation of a group is one request, the POST of its name
    with the organisation as owner, and what it gives is read off the
    answer alone.  It returns the id when the answer is a JSON object
    with a non-empty [id], and [None] when the object has no usable id,
    when the body is not JSON and when the request got no answer or was
    refused with a body that is a JSON object or no JSON.  When a body
    is JSON and no object - in a 2xx answer or in a refusal - an
    [AttributeError] leaves the function instead.  It ends its log with
    the success line exactly when it returns an id; an object without a
    usable id, a body that is not JSON and a refused request each get
    their own error line; a run that raises writes neither the success
    line nor one of the two lines about the body.  It never calls
    [sys.exit] and has no loop. *)
Theorem create_context_result
    (Remote : Type) (serve : Remote -> Request -> outcome * Remote)
    (self : CircleCIClient) (context_name : string) (r : Remote) :
  let req := create_request self context_name in
  let run := create_context serve self context_name r in
  requests run.2 = [req]
  ∧ req_json req = Some (CreatePayload context_name (client_org_id self))
  ∧ run.1.2 = (serve r req).2
  ∧ run.1.1 = match (serve r req).1 with
              | Returned (Some data) =>
                  Ret (truthy_opt (get (fields data) "id"))
              | ReturnedOdd (UnreadableItems data_fields) =>
                  Ret (truthy_opt (get data_fields "id"))
              | Returned None | RequestException _ => Ret None
              | ReturnedOdd NotAnObject | RequestExceptionOdd _ =>
                  Raised AttributeError
              end
  ∧ (∀ context_id, run.1.1 = Ret (Some context_id) ->
       context_id ≠ ""
       ∧ last run.2 = Some (Log (CreatedContext context_name context_id)))
  ∧ (run.1.1 = Ret None ->
     (∀ context_id, Log (CreatedContext context_name context_id) ∉ run.2)
     ∧ match (serve r req).1 with
       | Returned (Some _) | ReturnedOdd _ => last run.2 = Some (Log CreateNoId)
       | Returned None => last run.2 = Some (Log CreateParseFailed)
       | RequestException _ | RequestExceptionOdd _ =>
           Log (ApiRequestFailed POST (req_url req)) ∈ run.2
       end)
  ∧ (∀ e, run.1.1 = Raised e ->
       (∀ context_id, Log (CreatedContext context_name context_id) ∉ run.2)
       ∧ (Log CreateNoId ∉ run.2) ∧ (Log CreateParseFailed ∉ run.2))
  ∧ (∀ code, run.1.1 ≠ SysExit code) ∧ run.1.1 ≠ OutOfFuel.
Proof.
  cbv zeta. rewrite create_context_run. cbv zeta.
  destruct (serve r (create_request self context_name))
    as [[status|[data|]|code|[|odd_fields]] r'] eqn:Hserve; cbn [fst snd].
  - rewrite requests_cons_log, requests_cons_http, requests_failure_lines.
    do 4 (split; [done|]). split; [done|]. split; [|done]. intros _. split.
    + intros cid Hin. unfold failure_lines in Hin.
      destruct status; in_lines Hin.
    + apply elem_of_cons. right. apply elem_of_cons. right.
      apply elem_of_cons. by left.
  - destruct (truthy_opt (get (fields data) "id")) as [cid|] eqn:Hcid;
      cbn [fst snd]; do 4 (split; [done|]).
    + split; [|done]. intros ? [= <-]. split; [|done].
      apply truthy_opt_Some in Hcid as [_ Hcid]. by intros ->.
    + split; [done|]. split; [|done]. intros _. split; [|done].
      intros cid Hin. in_lines Hin.
  - do 4 (split; [done|]). split; [done|]. split; [|done]. intros _.
    split; [|done]. intros cid Hin. in_lines Hin.
  - do 4 (split; [done|]). split; [done|]. split; [done|]. split; [|done].
    intros e _. repeat split; intros; intros Hin; in_lines Hin.
  - do 4 (split; [done|]). split; [done|]. split; [done|]. split; [|done].
    intros e _. repeat split; intros; intros Hin; in_lines Hin.
  - destruct (truthy_opt (get odd_fields "id")) as [cid|] eqn:Hcid;
      cbn [fst snd]; do 4 (split; [done|]).
    + split; [|done]. intros ? [= <-]. split; [|done].
      apply truthy_opt_Some in Hcid as [_ Hcid]. by intros ->.
    + split; [done|]. split; [|done]. intros _. split; [|done].
      intros cid Hin. in_lines Hin.
Qed.

Lemma create_context_result_witness :
  let self := mkClient CIRCLECI_API_BASE_URL "org" "token" in
  let run := create_context serve_script self "g"
               [Returned (Some (mkBody [("id", ""); ("name", "g")] None))] in
  let run' := create_context serve_script self "g" [ReturnedOdd NotAnObject] in
  (run.1.1 = Ret None ∧ last run.2 = Some (Log CreateNoId))
  ∧ (run'.1.1 = Raised AttributeError ∧ Log CreateParseFailed ∉ run'.2).
Proof.
  intros self run run'. split.
  - destruct (create_context_result Script serve_script self "g"
                [Returned (Some (mkBody [("id", ""); ("name", "g")] None))])
      as (_ & _ & _ & Hres & _ & Hnone & _).
    split; [exact Hres|]. by destruct (Hnone Hres) as [_ Hlast].
  - destruct (create_context_result Script serve_script self "g"
                [ReturnedOdd NotAnObject])
      as (_ & _ & _ & Hres & _ & _ & Hraised & _).
    split; [exact Hres|]. by destruct (Hraised _ Hres) as (_ & _ & Hno).
Defined.

(** ** Every group is taken up *)





Section Groups.

Context {Remote : Type}.
Variable serve : Remote -> Request -> outcome * Remote.
Variable py_str : yaml -> string.
Variable P : Event -> Prop.
Hypothesis requests_in : ∀ req out, P (Http req out).
Hypothesis client_lines : ∀ m, client_line m = true -> P (Log m).
Hypothesis group_lines : ∀ m, group_line m = true -> P (Log m).
Implicit Types (r : Remote) (client : CircleCIClient).



End Groups.

Section Announced.

Context {Remote : Type}.
Variable serve : Remote -> Request -> outcome * Remote.
Variable py_str : yaml -> string.
Implicit Types (r : Remote) (client : CircleCIClient).

#[local] Arguments list_environment_variables : simpl never.
#[local] Arguments create_context : simpl never.
#[local] Arguments process_variables : simpl never.




#[local] Arguments process_contexts : simpl never.
#[local] Arguments fetch_existing : simpl never.


End Announced.


